(** * RoadLogistics: road-maintenance scheduling of a colony

    A shallow embedding of [src/logistics/RoadLogistics.ts] and the
    properties of its assignment registry, its repave decision and its
    paving manifest.

    Conventions of the embedding.
    - Hit points, carried energy and carry capacity are natural numbers
      ([N]); the JavaScript arithmetic on them (thresholds, repair cost,
      remaining energy) is carried out in exact rationals ([Q]), so the
      rounding of IEEE doubles is not modelled.
    - The object [this] and the module-level cache form the mutable state
      [State]; every method is a state-passing function [M A].
    - Engine and planner services that the class only calls (ranges, the
      road plan, room activity, [REPAIR_POWER], [repairTaskName]) are
      parameters. *)

From Stdlib Require Import QArith Sorted.
From stdpp Require Import gmap strings list fin_maps.

Close Scope Q_scope.
Open Scope string_scope.
Open Scope list_scope.

(** ** Data model *)

Record RoomPosition := mkPos {
  pos_x : Z;
  pos_y : Z;
  roomName : string
}.

Record StructureRoad := mkRoad {
  id : string;
  pos : RoomPosition;
  hits : N;
  hitsMax : N
}.

Record Room := mkRoom {
  room_name : string;
  roads : list StructureRoad;
  isSafe : bool
}.

(** A task as far as the scheduler reads it: its name, the position and
    the id of its target. *)
Record Task := mkTask {
  task_name : string;
  targetPos : RoomPosition;
  targetRef : string
}.

Record Zerg := mkZerg {
  zerg_name : string;
  carryCapacity : N;
  carry_energy : N;
  task : option Task
}.

(** The part of [Colony] the class reads: [colony.name], [colony.pos],
    [colony.rooms], [colony.isRoomActive], [colony.roomPlanner.roadShouldBeHere]
    and [colony.overlords.work.workers]. *)
Record Colony := mkColony {
  colony_name : string;
  colony_pos : RoomPosition;
  rooms : list Room;
  isRoomActive : string → bool;
  roadShouldBeHere : RoomPosition → bool;
  workers : list Zerg
}.

(** [RoadLogistics.settings] *)
Record Settings := mkSettings {
  allowedPaversPerRoom : nat;
  criticalThreshold : Q;
  repairThreshold : Q
}.

Definition default_settings : Settings :=
  {| allowedPaversPerRoom := 1;
     criticalThreshold := 25 # 100;
     repairThreshold := 9 # 10 |}.

Definition ROAD_CACHE_TIMEOUT : nat := 25.

(** What the class takes from the game engine and from sibling modules. *)
Record Env := mkEnv {
  Game_time : nat;
  Game_rooms : gmap string Room;
  REPAIR_POWER : positive;
  repairTaskName : string;
  (** [RoomPosition.getRangeTo]; [None] stands for [Infinity]. *)
  getRangeTo : RoomPosition → RoomPosition → option N;
  (** [RoomPosition.getMultiRoomRangeTo] *)
  getMultiRoomRangeTo : RoomPosition → RoomPosition → nat
}.

(** ** Mutable state and the state-passing monad *)

Record Entry (A : Type) := mkEntry {
  value : A;
  created : nat
}.
Arguments mkEntry {A} _ _.
Arguments value {A} _.
Arguments created {A} _.

Record State := mkState {
  _assignedWorkers : gmap string (list string);
  cache_structures : gmap (string * string) (Entry (list StructureRoad));
  cache_numbers : gmap (string * string) (Entry Q)
}.

Definition M (A : Type) : Type := State → A * State.

Definition ret {A} (a : A) : M A := λ s, (a, s).

Definition bind {A B} (m : M A) (k : A → M B) : M B :=
  λ s, let '(a, s') := m s in k a s'.

Notation "'let*' x := m 'in' k" := (bind m (λ x, k))
  (at level 10, x name, m at level 100, k at level 200).

(** ** Generic helpers standing for lodash *)

Definition Qltb (a b : Q) : bool := negb (Qle_bool b a).

Definition NtoQ (n : N) : Q := inject_Z (Z.of_N n).

(** [_.sortBy]: a stable sort by ascending key. *)
Fixpoint sortBy_insert {A} (key : A → nat) (a : A) (l : list A) : list A :=
  match l with
  | [] => [a]
  | b :: l' => if (key a <=? key b)%nat then a :: b :: l'
               else b :: sortBy_insert key a l'
  end.

Definition sortBy {A} (l : list A) (key : A → nat) : list A :=
  foldr (sortBy_insert key) [] l.

(** [_.sum(list, f)] *)
Definition sum {A} (l : list A) (f : A → Q) : Q :=
  fold_left Qplus (map f l) (0 : Q).

(** [Array.prototype.includes] on names *)
Definition includes (l : list string) (n : string) : bool :=
  bool_decide (n ∈ l).

(** ** The global cache *)

Module GlobalCache.

(** Modelled from the spec: the generic cache [$] of
    [caching/GlobalCache], which the class imports; an entry is stored
    under the owner reference and a key together with the cycle it was
    computed in, is returned while it is at most [timeout] cycles old,
    and is recomputed lazily by the callback otherwise. *)
Definition live {A} (now timeout : nat) (e : option (Entry A)) : option A :=
  match e with
  | Some e => if (now <=? created e + timeout)%nat then Some (value e) else None
  | None => None
  end.

Definition structures (now : nat) (saver key : string)
    (callback : M (list StructureRoad)) (timeout : nat)
    : M (list StructureRoad) :=
  λ s, match live now timeout (cache_structures s !! (saver, key)) with
       | Some v => (v, s)
       | None =>
           let '(v, s') := callback s in
           (v, {| _assignedWorkers := _assignedWorkers s';
                  cache_structures :=
                    <[(saver, key) := mkEntry v now]> (cache_structures s');
                  cache_numbers := cache_numbers s' |})
       end.

Definition number (now : nat) (saver key : string)
    (callback : M Q) (timeout : nat) : M Q :=
  λ s, match live now timeout (cache_numbers s !! (saver, key)) with
       | Some v => (v, s)
       | None =>
           let '(v, s') := callback s in
           (v, {| _assignedWorkers := _assignedWorkers s';
                  cache_structures := cache_structures s';
                  cache_numbers :=
                    <[(saver, key) := mkEntry v now]> (cache_numbers s') |})
       end.

End GlobalCache.

(** ** Tasks *)

Module Tasks.

(** Modelled from the spec: [Tasks.repair] of [tasks/Tasks], a repair
    action on one structure. *)
Definition repair (repairTaskName : string) (target : StructureRoad) : Task :=
  {| task_name := repairTaskName;
     targetPos := pos target;
     targetRef := id target |}.

(** Modelled from the spec: [Tasks.chain] of [tasks/Tasks]; the chain is
    the ordered sequence of its actions, and an empty sequence yields
    no task. *)
Definition chain (tasks : list Task) : option (list Task) :=
  match tasks with
  | [] => None
  | _ :: _ => Some tasks
  end.

End Tasks.

(** ** The class *)

Section RoadLogistics.

Context (G : Env) (settings : Settings) (colony : Colony).

Definition ref : string := colony_name colony +:+ ":roadLogistics".

(** [constructor] and [refresh] both install an empty registry. *)
Definition refresh : M unit :=
  λ s, (tt, {| _assignedWorkers := ∅;
               cache_structures := cache_structures s;
               cache_numbers := cache_numbers s |}).

Definition assignedWorkers (room : Room) : M (list string) :=
  λ s, (default [] (_assignedWorkers s !! room_name room), s).

(** The filter shared by [criticalRoads] and [repairableRoads]. *)
Definition needsRepair (threshold : Q) (road : StructureRoad) : bool :=
  Qltb (NtoQ (hits road)) (NtoQ (hitsMax road) * threshold)%Q
  && roadShouldBeHere colony (pos road).

Definition anchorRange (road : StructureRoad) : nat :=
  getMultiRoomRangeTo G (pos road) (colony_pos colony).

(** The callbacks handed to the cache. *)
Definition computeCriticalRoads (room : Room) : list StructureRoad :=
  sortBy (List.filter (needsRepair (criticalThreshold settings)) (roads room))
         anchorRange.

Definition computeRepairableRoads (room : Room) : list StructureRoad :=
  sortBy (List.filter (needsRepair (repairThreshold settings)) (roads room))
         anchorRange.

Definition criticalRoads (room : Room) : M (list StructureRoad) :=
  GlobalCache.structures (Game_time G) ref ("criticalRoads:" +:+ room_name room)
    (ret (computeCriticalRoads room)) ROAD_CACHE_TIMEOUT.

Definition repairableRoads (room : Room) : M (list StructureRoad) :=
  GlobalCache.structures (Game_time G) ref ("repairableRoads:" +:+ room_name room)
    (ret (computeRepairableRoads room)) ROAD_CACHE_TIMEOUT.

(** Energy needed to bring one road to full health. *)
Definition repairCost (road : StructureRoad) : Q :=
  ((NtoQ (hitsMax road) - NtoQ (hits road)) / inject_Z (Zpos (REPAIR_POWER G)))%Q.

Definition energyToRepave (room : Room) : M Q :=
  GlobalCache.number (Game_time G) ref ("energyToRepave:" +:+ room_name room)
    (let* rr := repairableRoads room in ret (sum rr repairCost))
    ROAD_CACHE_TIMEOUT.

Definition workerShouldRepaveRoom (worker : Zerg) (room : Room) : M bool :=
  let* assigned := assignedWorkers room in
  let otherAssignedWorkers :=
    List.filter (λ name, negb (String.eqb name (zerg_name worker))) assigned in
  if (length otherAssignedWorkers <? allowedPaversPerRoom settings)%nat then
    let* assigned' := assignedWorkers room in
    if includes assigned' (zerg_name worker) then
      let* rr := repairableRoads room in
      ret (0 <? length rr)%nat
    else
      let* cr := criticalRoads room in
      if (0 <? length cr)%nat then ret true
      else
        let* e := energyToRepave room in
        ret (Qle_bool (NtoQ (carryCapacity worker)) e)
  else ret false.

(** The [for] loop of [workerShouldRepave]. *)
Fixpoint scanRooms (worker : Zerg) (rs : list Room) : M (option Room) :=
  match rs with
  | [] => ret None
  | room :: rs' =>
      if isRoomActive colony (room_name room) && isSafe room then
        let* ok := workerShouldRepaveRoom worker room in
        if ok then ret (Some room) else scanRooms worker rs'
      else scanRooms worker rs'
  end.

Definition isRepairTask (t : option Task) : option Task :=
  match t with
  | Some t => if String.eqb (task_name t) (repairTaskName G) then Some t else None
  | None => None
  end.

Definition workerShouldRepave (worker : Zerg) : M (option Room) :=
  let scan := scanRooms worker (rooms colony) in
  match isRepairTask (task worker) with
  | Some t =>
      match Game_rooms G !! roomName (targetPos t) with
      | Some room =>
          let* assigned := assignedWorkers room in
          if includes assigned (zerg_name worker) then
            let* ok := workerShouldRepaveRoom worker room in
            if ok then ret (Some room) else scan
          else scan
      | None => scan
      end
  | None => scan
  end.

(** One iteration of the loop of [init]. *)
Definition initWorker (worker : Zerg) : M unit :=
  match isRepairTask (task worker) with
  | Some t =>
      let roomName := roomName (targetPos t) in
      λ s,
        let reg := _assignedWorkers s in
        let reg1 := match reg !! roomName with
                    | Some _ => reg
                    | None => <[roomName := []]> reg
                    end in
        let reg2 := <[roomName := (default [] (reg1 !! roomName) ++ [zerg_name worker])%list]> reg1 in
        (tt, {| _assignedWorkers := reg2;
                cache_structures := cache_structures s;
                cache_numbers := cache_numbers s |})
  | None => ret tt
  end.

Fixpoint initWorkers (ws : list Zerg) : M unit :=
  match ws with
  | [] => ret tt
  | worker :: ws' => let* _ := initWorker worker in initWorkers ws'
  end.

Definition init : M unit := initWorkers (workers colony).

Definition registerWorkerAssignment (worker : Zerg) (room : Room) : M unit :=
  λ s,
    let reg := _assignedWorkers s in
    match reg !! room_name room with
    | Some l =>
        if includes l (zerg_name worker) then (tt, s)
        else (tt, {| _assignedWorkers := <[room_name room := (l ++ [zerg_name worker])%list]> reg;
                     cache_structures := cache_structures s;
                     cache_numbers := cache_numbers s |})
    | None =>
        (tt, {| _assignedWorkers := <[room_name room := [zerg_name worker]]> reg;
                cache_structures := cache_structures s;
                cache_numbers := cache_numbers s |})
    end.

(** [road.pos.getRangeTo(previousPos) <= 1] *)
Definition inRange1 (a b : RoomPosition) : bool :=
  match getRangeTo G a b with
  | Some d => (d <=? 1)%N
  | None => false
  end.

(** [targetRefs[road.id]] is truthy *)
Definition targeted (targetRefs : gmap string bool) (road : StructureRoad) : bool :=
  default false (targetRefs !! id road).

(** The predicate handed to [_.find], with and without a previous position. *)
Definition eligible (targetRefs : gmap string bool)
    (previousPos : option RoomPosition) (road : StructureRoad) : bool :=
  match previousPos with
  | Some p =>
      (hits road <? hitsMax road)%N && negb (targeted targetRefs road)
      && inRange1 (pos road) p
  | None =>
      (hits road <? hitsMax road)%N && negb (targeted targetRefs road)
  end.

(** The [while (true)] loop of [buildPavingManifest]; [fuel] bounds the
    number of iterations and [None] reports that it ran out. *)
Fixpoint pavingLoop (fuel : nat) (room : Room) (energy : Q)
    (targetRefs : gmap string bool) (tasks : list Task)
    (previousPos : option RoomPosition) : M (option (list Task)) :=
  match fuel with
  | O => ret None
  | S fuel' =>
      if Qle_bool energy 0 then ret (Some tasks)
      else
        let* rr := repairableRoads room in
        match List.find (eligible targetRefs previousPos) rr with
        | Some target =>
            pavingLoop fuel' room (energy - repairCost target)%Q
              (<[id target := true]> targetRefs)
              (tasks ++ [Tasks.repair (repairTaskName G) target])%list
              (Some (pos target))
        | None => ret (Some tasks)
        end
  end.

(** [None]: out of fuel; [Some r]: the method returned [r], which is
    [None] for JavaScript's [null]. *)
Definition buildPavingManifest (fuel : nat) (worker : Zerg) (room : Room)
    : M (option (option (list Task))) :=
  let* tasks := pavingLoop fuel room (NtoQ (carry_energy worker)) ∅ [] None in
  ret (Tasks.chain <$> tasks).

End RoadLogistics.

(** ** Observations on states, used to state and prove the properties *)

Section Observations.

Context (G : Env) (settings : Settings) (colony : Colony).

(** A computation that leaves the assignment registry as it found it. *)
Definition frame {A} (m : M A) : Prop :=
  ∀ s, _assignedWorkers (m s).2 = _assignedWorkers s.

(** What the three cached queries answer in a state, read off without
    running them. *)
Definition peekStructures (key : string) (fresh : list StructureRoad)
    (s : State) : list StructureRoad :=
  default fresh
    (GlobalCache.live (Game_time G) ROAD_CACHE_TIMEOUT
       (cache_structures s !! (ref colony, key))).

Definition peekCritical (room : Room) (s : State) : list StructureRoad :=
  peekStructures ("criticalRoads:" +:+ room_name room)
    (computeCriticalRoads G settings colony room) s.

Definition peekRepairable (room : Room) (s : State) : list StructureRoad :=
  peekStructures ("repairableRoads:" +:+ room_name room)
    (computeRepairableRoads G settings colony room) s.

Definition peekEnergy (room : Room) (s : State) : Q :=
  default (sum (peekRepairable room s) (repairCost G))
    (GlobalCache.live (Game_time G) ROAD_CACHE_TIMEOUT
       (cache_numbers s !! (ref colony, "energyToRepave:" +:+ room_name room))).

(** The answer of [workerShouldRepaveRoom] as a function of the state. *)
Definition shouldRepaveRoom (worker : Zerg) (room : Room) (s : State) : bool :=
  let assigned := default [] (_assignedWorkers s !! room_name room) in
  let others :=
    List.filter (λ name, negb (String.eqb name (zerg_name worker))) assigned in
  if (length others <? allowedPaversPerRoom settings)%nat then
    if includes assigned (zerg_name worker) then
      (0 <? length (peekRepairable room s))%nat
    else
      (0 <? length (peekCritical room s))%nat
      || Qle_bool (NtoQ (carryCapacity worker)) (peekEnergy room s)
  else false.

(** [otherAssignedWorkers] of [workerShouldRepaveRoom] *)
Definition otherAssignedWorkers (worker : Zerg) (room : Room) (s : State)
    : list string :=
  List.filter (λ name, negb (String.eqb name (zerg_name worker)))
              (assignedWorkers room s).1.

(** Two states that answer every query on the rooms [rs] alike. *)
Definition agree (rs : list Room) (s s' : State) : Prop :=
  _assignedWorkers s' = _assignedWorkers s ∧
  ∀ r, r ∈ rs →
    peekCritical r s' = peekCritical r s ∧
    peekRepairable r s' = peekRepairable r s ∧
    peekEnergy r s' = peekEnergy r s.

(** Rooms are identified by their name. *)
Definition coherent (rs : list Room) : Prop :=
  ∀ r1 r2, r1 ∈ rs → r2 ∈ rs → room_name r1 = room_name r2 → r1 = r2.

(** The registry books no worker under two regions. *)
Definition unique_booking (s : State) : Prop :=
  ∀ w r1 r2 l1 l2,
    _assignedWorkers s !! r1 = Some l1 →
    _assignedWorkers s !! r2 = Some l2 →
    w ∈ l1 → w ∈ l2 → r1 = r2.

(** The operations that write the registry. *)
Inductive Op :=
| OpRefresh
| OpInit
| OpRegister (worker : Zerg) (room : Room).

Definition runOp (op : Op) : M unit :=
  match op with
  | OpRefresh => refresh
  | OpInit => init G colony
  | OpRegister worker room => registerWorkerAssignment worker room
  end.

Fixpoint runOps (ops : list Op) : M unit :=
  match ops with
  | [] => ret tt
  | op :: ops' => let* _ := runOp op in runOps ops'
  end.

(** An operation pairs every worker it books with the region [home]
    gives for that worker. *)
Definition respects (home : string → string) (op : Op) : Prop :=
  match op with
  | OpRefresh => True
  | OpInit =>
      ∀ w t, w ∈ workers colony → isRepairTask G (task w) = Some t →
             home (zerg_name w) = roomName (targetPos t)
  | OpRegister worker room => home (zerg_name worker) = room_name room
  end.

(** Every booked worker sits under its [home] region. *)
Definition booked_at (home : string → string) (s : State) : Prop :=
  ∀ r l w, _assignedWorkers s !! r = Some l → w ∈ l → home w = r.

(** The registry states of one planning cycle: [refresh], then [init],
    then registrations. *)
Inductive cycleState : State → Prop :=
| cycle_init s :
    NoDup (zerg_name <$> workers colony) →
    cycleState (init G colony (refresh s).2).2
| cycle_register s worker room :
    cycleState s →
    cycleState (registerWorkerAssignment worker room s).2.

(** No region lists a worker twice. *)
Definition lists_nodup (s : State) : Prop :=
  ∀ r l, _assignedWorkers s !! r = Some l → NoDup l.

(** Occurrences of a worker in a region's list. *)
Definition occurrences (name : string) (room : Room) (s : State) : nat :=
  length (List.filter (String.eqb name) (assignedWorkers room s).1).

(** Consecutive actions of a chain lie within range 1 of each other. *)
Fixpoint contiguous (tasks : list Task) : Prop :=
  match tasks with
  | t1 :: (t2 :: _) as rest =>
      inRange1 G (targetPos t2) (targetPos t1) = true ∧ contiguous rest
  | _ => True
  end.

(** The roads of a list that [targetRefs] does not mark yet. *)
Definition untargeted (targetRefs : gmap string bool)
    (l : list StructureRoad) : list StructureRoad :=
  List.filter (λ road, negb (targeted targetRefs road)) l.

End Observations.

(** ** A small colony, used to run the definitions on concrete inputs *)

Module Sample.

(** Range inside one room as the engine computes it (the larger of the
    two coordinate differences), infinite across rooms. *)
Definition range (a b : RoomPosition) : option N :=
  if String.eqb (roomName a) (roomName b)
  then Some (Z.to_N (Z.max (Z.abs (pos_x a - pos_x b)) (Z.abs (pos_y a - pos_y b))))
  else None.

Definition multiRoomRange (a b : RoomPosition) : nat :=
  match range a b with
  | Some d => N.to_nat d
  | None => 50
  end.

Definition anchor : RoomPosition := mkPos 0 0 "W1N1".

(** Three worn roads in a row next to the anchor, 1000 hits short each. *)
Definition road1 : StructureRoad := mkRoad "r1" (mkPos 1 0 "W1N1") 4000 5000.
Definition road2 : StructureRoad := mkRoad "r2" (mkPos 2 0 "W1N1") 4000 5000.
Definition road3 : StructureRoad := mkRoad "r3" (mkPos 3 0 "W1N1") 4000 5000.
(** A road in critical condition. *)
Definition road4 : StructureRoad := mkRoad "r4" (mkPos 5 5 "W2N1") 1000 5000.

Definition home : Room := mkRoom "W1N1" [road3; road1; road2] true.
Definition outpost : Room := mkRoom "W2N1" [road4] false.
Definition done_room : Room := mkRoom "W3N1" [] true.

Definition env : Env :=
  {| Game_time := 100;
     Game_rooms := {[ "W1N1" := home; "W2N1" := outpost; "W3N1" := done_room ]};
     REPAIR_POWER := 100;
     repairTaskName := "repair";
     getRangeTo := range;
     getMultiRoomRangeTo := multiRoomRange |}.

(** A worker in the middle of a repair task in [done_room]. *)
Definition mender : Zerg :=
  mkZerg "mender" 50 0 (Some (mkTask "repair" (mkPos 7 7 "W3N1") "r9")).
(** A worker whose repair task points into a room that is not visible. *)
Definition stray : Zerg :=
  mkZerg "stray" 50 0 (Some (mkTask "repair" (mkPos 7 7 "E9S9") "r8")).
(** Two idle workers, the first carrying 25 energy. *)
Definition paver : Zerg := mkZerg "paver" 50 25 None.
Definition helper : Zerg := mkZerg "helper" 50 50 None.

Definition colony : Colony :=
  {| colony_name := "W1N1";
     colony_pos := anchor;
     rooms := [home; outpost; done_room];
     isRoomActive := λ _, true;
     roadShouldBeHere := λ _, true;
     workers := [mender; paver; helper] |}.

Definition empty_state : State :=
  {| _assignedWorkers := ∅; cache_structures := ∅; cache_numbers := ∅ |}.

(** The state of a cycle after [refresh] and [init]. *)
Definition started : State :=
  (init env colony (refresh empty_state).2).2.

(** The same with [paver] registered for [home]. *)
Definition booked : State :=
  (registerWorkerAssignment paver home started).2.

Definition home_of (name : string) : string :=
  if String.eqb name "mender" then "W3N1" else "W1N1".

End Sample.

(** ** The remaining method and further observations *)

Section MoreObservations.

Context (G : Env) (settings : Settings) (colony : Colony).

(** [run] has an empty body. *)
Definition run : M unit := ret tt.

(** The worker holds a repair task whose target lies in the room named
    [name]: the test [init] applies before it books the worker. *)
Definition repairingIn (name : string) (worker : Zerg) : bool :=
  match isRepairTask G (task worker) with
  | Some t => String.eqb (roomName (targetPos t)) name
  | None => false
  end.

(** The room [workerShouldRepave] looks at first: the visible room the
    worker's repair task points into, if any. *)
Definition taskRoom (worker : Zerg) : option Room :=
  match isRepairTask G (task worker) with
  | Some t => Game_rooms G !! roomName (targetPos t)
  | None => None
  end.

(** [road.hits < road.hitsMax] *)
Definition damaged (road : StructureRoad) : bool :=
  (hits road <? hitsMax road)%N.

(** The order [_.sortBy] is asked to establish. *)
Definition closerToAnchor (a b : StructureRoad) : Prop :=
  (anchorRange G colony a ≤ anchorRange G colony b)%nat.

(** Neither of the three cached answers for the room is held in the cache. *)
Definition cold (room : Room) (s : State) : Prop :=
  GlobalCache.live (Game_time G) ROAD_CACHE_TIMEOUT
    (cache_structures s !! (ref colony, "criticalRoads:" +:+ room_name room)) = None ∧
  GlobalCache.live (Game_time G) ROAD_CACHE_TIMEOUT
    (cache_structures s !! (ref colony, "repairableRoads:" +:+ room_name room)) = None ∧
  GlobalCache.live (Game_time G) ROAD_CACHE_TIMEOUT
    (cache_numbers s !! (ref colony, "energyToRepave:" +:+ room_name room)) = None.

End MoreObservations.

Module SampleMore.

(** A worker without any carry capacity. *)
Definition bare : Zerg := mkZerg "bare" 0 0 None.

(** A second worker repairing in [Sample.done_room]. *)
Definition mason : Zerg :=
  mkZerg "mason" 50 0 (Some (mkTask "repair" (mkPos 3 4 "W3N1") "r7")).

(** A worker repairing a road of [Sample.home]. *)
Definition roadie : Zerg :=
  mkZerg "roadie" 50 40 (Some (mkTask "repair" (mkPos 1 0 "W1N1") "r1")).

(** The registry once [roadie] is registered for [Sample.home]. *)
Definition underway : State :=
  (registerWorkerAssignment roadie Sample.home Sample.empty_state).2.

(** The sample colony with a longer work pool. *)
Definition crowded : Colony :=
  {| colony_name := "W1N1";
     colony_pos := Sample.anchor;
     rooms := [Sample.home; Sample.outpost; Sample.done_room];
     isRoomActive := λ _, true;
     roadShouldBeHere := λ _, true;
     workers := [Sample.mender; Sample.paver; mason] |}.

End SampleMore.

(** * Properties *)

(** ** The queries leave the registry alone *)

Section Frame.

Context (G : Env) (settings : Settings) (colony : Colony).

Lemma frame_ret {A} (a : A) : frame (ret a).
Proof. by intros s. Qed.

Lemma frame_bind {A B} (m : M A) (k : A → M B) :
  frame m → (∀ a, frame (k a)) → frame (bind m k).
Proof.
  intros Hm Hk s. unfold bind.
  specialize (Hm s). destruct (m s) as [a s1]. simpl in Hm.
  by rewrite Hk.
Qed.

Lemma frame_structures now saver key callback timeout :
  frame callback → frame (GlobalCache.structures now saver key callback timeout).
Proof.
  intros Hc s. unfold GlobalCache.structures.
  destruct (GlobalCache.live _ _ _); [done|].
  specialize (Hc s). by destruct (callback s).
Qed.

Lemma frame_number now saver key callback timeout :
  frame callback → frame (GlobalCache.number now saver key callback timeout).
Proof.
  intros Hc s. unfold GlobalCache.number.
  destruct (GlobalCache.live _ _ _); [done|].
  specialize (Hc s). by destruct (callback s).
Qed.

Lemma frame_assignedWorkers room : frame (assignedWorkers room).
Proof. by intros s. Qed.

Lemma frame_criticalRoads room : frame (criticalRoads G settings colony room).
Proof. apply frame_structures, frame_ret. Qed.

Lemma frame_repairableRoads room : frame (repairableRoads G settings colony room).
Proof. apply frame_structures, frame_ret. Qed.

Lemma frame_energyToRepave room : frame (energyToRepave G settings colony room).
Proof.
  apply frame_number, frame_bind; [apply frame_repairableRoads|].
  intros; apply frame_ret.
Qed.

Lemma frame_workerShouldRepaveRoom worker room :
  frame (workerShouldRepaveRoom G settings colony worker room).
Proof.
  unfold workerShouldRepaveRoom.
  apply frame_bind; [apply frame_assignedWorkers|intros assigned].
  destruct (_ <? _)%nat; [|apply frame_ret].
  apply frame_bind; [apply frame_assignedWorkers|intros assigned'].
  destruct (includes _ _).
  - apply frame_bind; [apply frame_repairableRoads|intros; apply frame_ret].
  - apply frame_bind; [apply frame_criticalRoads|intros cr].
    destruct (_ <? _)%nat; [apply frame_ret|].
    apply frame_bind; [apply frame_energyToRepave|intros; apply frame_ret].
Qed.

Lemma frame_scanRooms worker rs :
  frame (scanRooms G settings colony worker rs).
Proof.
  induction rs as [|room rs IH]; simpl; [apply frame_ret|].
  destruct (_ && _); [|done].
  apply frame_bind; [apply frame_workerShouldRepaveRoom|].
  intros []; [apply frame_ret|done].
Qed.

Lemma frame_workerShouldRepave worker :
  frame (workerShouldRepave G settings colony worker).
Proof.
  unfold workerShouldRepave.
  destruct (isRepairTask _ _) as [t|]; [|apply frame_scanRooms].
  destruct (Game_rooms G !! _) as [room|]; [|apply frame_scanRooms].
  apply frame_bind; [apply frame_assignedWorkers|intros assigned].
  destruct (includes _ _); [|apply frame_scanRooms].
  apply frame_bind; [apply frame_workerShouldRepaveRoom|].
  intros []; [apply frame_ret|apply frame_scanRooms].
Qed.

(** C10: [workerShouldRepave] and [workerShouldRepaveRoom] are read-only
    on the assignment registry: after either call, [assignedWorkers]
    answers for every region what it answered before. *)
Theorem queries_preserve_assignedWorkers worker room s r :
  (assignedWorkers r (workerShouldRepave G settings colony worker s).2).1
    = (assignedWorkers r s).1 ∧
  (assignedWorkers r (workerShouldRepaveRoom G settings colony worker room s).2).1
    = (assignedWorkers r s).1.
Proof.
  unfold assignedWorkers; simpl.
  by rewrite frame_workerShouldRepave, frame_workerShouldRepaveRoom.
Qed.

End Frame.

(** ** The cached queries answer what the state shows *)

Section Cache.

Context (G : Env) (settings : Settings) (colony : Colony).

Lemma live_now {A} (v : A) now timeout :
  GlobalCache.live now timeout (Some (mkEntry v now)) = Some v.
Proof.
  simpl. destruct (Nat.leb_spec now (now + timeout)) as [_|Hlt]; [done|lia].
Qed.

Lemma critical_repairable_keys a b :
  "criticalRoads:" +:+ a ≠ "repairableRoads:" +:+ b.
Proof. discriminate. Qed.

Lemma critical_key_inj a b :
  "criticalRoads:" +:+ a = "criticalRoads:" +:+ b → a = b.
Proof. intros H. by simplify_eq/=. Qed.

Lemma repairable_key_inj a b :
  "repairableRoads:" +:+ a = "repairableRoads:" +:+ b → a = b.
Proof. intros H. by simplify_eq/=. Qed.

Lemma energy_key_inj a b :
  "energyToRepave:" +:+ a = "energyToRepave:" +:+ b → a = b.
Proof. intros H. by simplify_eq/=. Qed.

(** A call of [$.structures] with a pure callback returns what the state
    shows, and changes no later answer. *)
Lemma structures_spec key fresh s :
  ∃ s',
    GlobalCache.structures (Game_time G) (ref colony) key (ret fresh)
      ROAD_CACHE_TIMEOUT s
    = (peekStructures G colony key fresh s, s') ∧
    _assignedWorkers s' = _assignedWorkers s ∧
    cache_numbers s' = cache_numbers s ∧
    ∀ key' fresh', (key' = key → fresh' = fresh) →
      peekStructures G colony key' fresh' s'
      = peekStructures G colony key' fresh' s.
Proof.
  unfold GlobalCache.structures, peekStructures.
  destruct (GlobalCache.live _ _ (cache_structures s !! _)) as [v|] eqn:Hlive.
  - by exists s.
  - eexists; split; [reflexivity|]. simpl. do 2 (split; [done|]).
    intros key' fresh' Hsame.
    destruct (decide (key' = key)) as [->|Hne].
    + rewrite lookup_insert_eq, live_now, Hlive. simpl. by rewrite Hsame.
    + rewrite lookup_insert_ne; [done|congruence].
Qed.

Lemma peekEnergy_ext room s s' :
  cache_numbers s' = cache_numbers s →
  peekRepairable G settings colony room s' = peekRepairable G settings colony room s →
  peekEnergy G settings colony room s' = peekEnergy G settings colony room s.
Proof. unfold peekEnergy. by intros -> ->. Qed.

Lemma agree_refl rs s : agree G settings colony rs s s.
Proof. by split. Qed.

Lemma agree_trans rs s1 s2 s3 :
  agree G settings colony rs s1 s2 → agree G settings colony rs s2 s3 →
  agree G settings colony rs s1 s3.
Proof.
  intros [Hreg1 H1] [Hreg2 H2]. split; [congruence|].
  intros r Hr. destruct (H1 r Hr) as (?&?&?), (H2 r Hr) as (?&?&?).
  repeat split; congruence.
Qed.

Lemma criticalRoads_spec rs room s :
  coherent rs → room ∈ rs →
  ∃ s', criticalRoads G settings colony room s
        = (peekCritical G settings colony room s, s') ∧
        agree G settings colony rs s s'.
Proof.
  intros Hco Hroom. unfold criticalRoads, peekCritical.
  destruct (structures_spec ("criticalRoads:" +:+ room_name room)
              (computeCriticalRoads G settings colony room) s)
    as (s' & Hrun & Hreg & Hnum & Hpeek).
  exists s'. split; [done|]. split; [done|].
  intros r Hr.
  assert (peekRepairable G settings colony r s'
          = peekRepairable G settings colony r s) as Hrep.
  { apply Hpeek. intros Hk. symmetry in Hk.
    by apply critical_repairable_keys in Hk. }
  split; [|split; [done|by apply peekEnergy_ext]].
  apply Hpeek. intros Hk%critical_key_inj.
  by rewrite (Hco r room Hr Hroom Hk).
Qed.

Lemma repairableRoads_spec rs room s :
  coherent rs → room ∈ rs →
  ∃ s', repairableRoads G settings colony room s
        = (peekRepairable G settings colony room s, s') ∧
        cache_numbers s' = cache_numbers s ∧
        agree G settings colony rs s s'.
Proof.
  intros Hco Hroom. unfold repairableRoads, peekRepairable.
  destruct (structures_spec ("repairableRoads:" +:+ room_name room)
              (computeRepairableRoads G settings colony room) s)
    as (s' & Hrun & Hreg & Hnum & Hpeek).
  exists s'. split; [done|]. split; [done|]. split; [done|].
  intros r Hr.
  assert (peekRepairable G settings colony r s'
          = peekRepairable G settings colony r s) as Hrep.
  { apply Hpeek. intros Hk%repairable_key_inj.
    by rewrite (Hco r room Hr Hroom Hk). }
  split; [|split; [done|by apply peekEnergy_ext]].
  apply Hpeek. intros Hk. by apply critical_repairable_keys in Hk.
Qed.

Lemma energyToRepave_spec rs room s :
  coherent rs → room ∈ rs →
  ∃ s', energyToRepave G settings colony room s
        = (peekEnergy G settings colony room s, s') ∧
        agree G settings colony rs s s'.
Proof.
  intros Hco Hroom. unfold energyToRepave, GlobalCache.number, peekEnergy.
  destruct (GlobalCache.live _ _ (cache_numbers s !! _)) as [v|] eqn:Hlive.
  { exists s. split; [done|apply agree_refl]. }
  unfold bind.
  destruct (repairableRoads_spec rs room s Hco Hroom)
    as (s1 & -> & Hnum & Hreg & Hpeek).
  eexists; split; [reflexivity|]. split; [done|].
  intros r Hr. destruct (Hpeek r Hr) as (Hc & Hrep & He).
  split; [done|]. split; [done|].
  unfold peekEnergy in *. simpl.
  destruct (decide (room_name r = room_name room)) as [Hk|Hne].
  - rewrite (Hco r room Hr Hroom Hk) in *.
    by rewrite lookup_insert_eq, live_now, Hlive.
  - rewrite lookup_insert_ne; [|intros Hk; apply (f_equal snd), energy_key_inj in Hk; congruence].
    replace (peekRepairable G settings colony r _)
      with (peekRepairable G settings colony r s1); [done|].
    done.
Qed.

End Cache.

(** ** Facts about the list helpers *)

Lemma find_ext_elem {A} (f g : A → bool) (l : list A) :
  (∀ a, a ∈ l → f a = g a) → List.find f l = List.find g l.
Proof.
  induction l as [|a l IH]; intros Hfg; simpl; [done|].
  rewrite <- (Hfg a) by left.
  destruct (f a); [done|]. apply IH. intros b Hb. apply Hfg. by right.
Qed.

Lemma find_Some_elem {A} (f : A → bool) (l : list A) a :
  List.find f l = Some a → a ∈ l ∧ f a = true.
Proof.
  intros [Hin Hf]%find_some. split; [by apply list_elem_of_In|done].
Qed.

Lemma find_None_elem {A} (f : A → bool) (l : list A) :
  (∀ a, a ∈ l → f a = false) → List.find f l = None.
Proof.
  induction l as [|a l IH]; intros Hf; simpl; [done|].
  rewrite (Hf a) by left. apply IH. intros b Hb. apply Hf. by right.
Qed.

(** ** The repave decision *)

Section Decision.

Context (G : Env) (settings : Settings) (colony : Colony).

Lemma workerShouldRepaveRoom_spec rs worker room s :
  coherent rs → room ∈ rs →
  ∃ s', workerShouldRepaveRoom G settings colony worker room s
        = (shouldRepaveRoom G settings colony worker room s, s') ∧
        agree G settings colony rs s s'.
Proof.
  intros Hco Hroom.
  unfold workerShouldRepaveRoom, shouldRepaveRoom, bind, assignedWorkers, ret.
  destruct (_ <? _)%nat; [|exists s; split; [done|apply agree_refl]].
  destruct (includes _ _).
  - destruct (repairableRoads_spec G settings colony rs room s Hco Hroom)
      as (s1 & -> & _ & Hag). by exists s1.
  - destruct (criticalRoads_spec G settings colony rs room s Hco Hroom)
      as (s1 & -> & Hag).
    destruct (0 <? _)%nat; [by exists s1|]. simpl.
    destruct (energyToRepave_spec G settings colony rs room s1 Hco Hroom)
      as (s2 & -> & Hag2).
    exists s2. split; [|by eapply agree_trans].
    destruct Hag as [_ Hag]. destruct (Hag room Hroom) as (_ & _ & ->). done.
Qed.

Lemma shouldRepaveRoom_agree rs worker room s s' :
  agree G settings colony rs s s' → room ∈ rs →
  shouldRepaveRoom G settings colony worker room s'
  = shouldRepaveRoom G settings colony worker room s.
Proof.
  intros [Hreg Hag] Hroom. destruct (Hag room Hroom) as (Hc & Hr & He).
  unfold shouldRepaveRoom. by rewrite Hreg, Hc, Hr, He.
Qed.

(** The scan is a first-fit search with the decision taken in the
    state the scan starts from. *)
Lemma scanRooms_spec rs worker rs0 s :
  coherent rs → (∀ r, r ∈ rs0 → r ∈ rs) →
  ∃ s', scanRooms G settings colony worker rs0 s
        = (List.find (λ r, isRoomActive colony (room_name r) && isSafe r
                           && shouldRepaveRoom G settings colony worker r s) rs0,
           s') ∧
        agree G settings colony rs s s'.
Proof.
  intros Hco. revert s.
  induction rs0 as [|room rs0 IH]; intros s Hsub; simpl.
  { exists s. split; [done|apply agree_refl]. }
  assert (room ∈ rs) as Hroom by (apply Hsub; left).
  assert (∀ r, r ∈ rs0 → r ∈ rs) as Hsub' by (intros; apply Hsub; by right).
  destruct (isRoomActive colony (room_name room) && isSafe room) eqn:Hgate; simpl.
  - unfold bind.
    destruct (workerShouldRepaveRoom_spec rs worker room s Hco Hroom)
      as (s1 & -> & Hag).
    destruct (shouldRepaveRoom _ _ _ _ _ s); [by exists s1|].
    destruct (IH s1 Hsub') as (s2 & -> & Hag2).
    exists s2. split; [|by eapply agree_trans].
    f_equal. apply find_ext_elem. intros r Hr.
    by rewrite (shouldRepaveRoom_agree rs worker r s s1 Hag (Hsub' r Hr)).
  - apply IH, Hsub'.
Qed.

Lemma isRepairTask_Some worker t :
  task worker = Some t → task_name t = repairTaskName G →
  isRepairTask G (task worker) = Some t.
Proof.
  intros -> Hname. unfold isRepairTask.
  by rewrite (proj2 (String.eqb_eq _ _) Hname).
Qed.

(** C3: a region whose other assigned workers already reach
    [allowedPaversPerRoom] is refused, whatever its roads look like; with
    the cap at 1, one other assigned worker is enough. *)
Theorem capacity_rejects worker room s :
  ((allowedPaversPerRoom settings ≤ length (otherAssignedWorkers worker room s))%nat →
   (workerShouldRepaveRoom G settings colony worker room s).1 = false) ∧
  (allowedPaversPerRoom settings = 1 →
   ∀ other, other ∈ (assignedWorkers room s).1 → other ≠ zerg_name worker →
   (workerShouldRepaveRoom G settings colony worker room s).1 = false).
Proof.
  assert ((allowedPaversPerRoom settings ≤ length (otherAssignedWorkers worker room s))%nat →
          (workerShouldRepaveRoom G settings colony worker room s).1 = false) as Hcap.
  { intros Hfull.
    unfold workerShouldRepaveRoom, otherAssignedWorkers, bind, assignedWorkers in *.
    simpl in *. by rewrite (proj2 (Nat.ltb_ge _ _) Hfull). }
  split; [done|].
  intros Hone other Hin Hne. apply Hcap. rewrite Hone.
  unfold otherAssignedWorkers.
  assert (other ∈ List.filter (λ name, negb (String.eqb name (zerg_name worker)))
                    (assignedWorkers room s).1) as Hother.
  { apply list_elem_of_In, filter_In. split; [by apply list_elem_of_In|].
    apply negb_true_iff, String.eqb_neq, Hne. }
  destruct (List.filter _ _); [by apply elem_of_nil in Hother|simpl; lia].
Qed.

(** C8: [assignedWorkers] always answers with a sequence and leaves the
    state alone; for a region without a registry entry the sequence is
    empty. *)
Theorem assignedWorkers_total room s :
  (∃ l, assignedWorkers room s = (l, s)) ∧
  (_assignedWorkers s !! room_name room = None →
   assignedWorkers room s = ([], s)).
Proof.
  unfold assignedWorkers. split; [by eexists|]. by intros ->.
Qed.

(** C9: when the room the worker's repair task points into is not a
    known room, [workerShouldRepave] is exactly the scan over the
    colony's rooms. *)
Theorem unknown_task_room_falls_through worker t s :
  task worker = Some t → task_name t = repairTaskName G →
  Game_rooms G !! roomName (targetPos t) = None →
  workerShouldRepave G settings colony worker s
  = scanRooms G settings colony worker (rooms colony) s.
Proof.
  intros Htask Hname Hroom. unfold workerShouldRepave.
  by rewrite (isRepairTask_Some worker t Htask Hname), Hroom.
Qed.

(** C4: a worker on a repair task in region [A], listed for [A], is not
    sent back to [A] once [A] has no repairable road left; when no other
    region passes the scan, it is sent nowhere. *)
Theorem finished_region_not_returned worker t A s :
  task worker = Some t → task_name t = repairTaskName G →
  Game_rooms G !! roomName (targetPos t) = Some A →
  coherent (A :: rooms colony) →
  zerg_name worker ∈ (assignedWorkers A s).1 →
  (repairableRoads G settings colony A s).1 = [] →
  (workerShouldRepave G settings colony worker s).1 ≠ Some A ∧
  ((∀ r, r ∈ rooms colony → r ≠ A →
      isRoomActive colony (room_name r) && isSafe r
      && (workerShouldRepaveRoom G settings colony worker r s).1 = false) →
   (workerShouldRepave G settings colony worker s).1 = None).
Proof.
  intros Htask Hname HA Hco Hlisted Hempty.
  set (rs := A :: rooms colony) in *.
  assert (A ∈ rs) as HArs by left.
  assert (∀ r, r ∈ rooms colony → r ∈ rs) as Hsub by (intros; by right).
  assert (shouldRepaveRoom G settings colony worker A s = false) as Hno.
  { destruct (repairableRoads_spec G settings colony rs A s Hco HArs)
      as (s1 & Hrun & _). rewrite Hrun in Hempty. simpl in Hempty.
    unfold shouldRepaveRoom. simpl in Hlisted.
    unfold includes. rewrite (bool_decide_eq_true_2 _ Hlisted), Hempty.
    by destruct (_ <? _)%nat. }
  unfold workerShouldRepave.
  rewrite (isRepairTask_Some worker t Htask Hname), HA.
  unfold bind. simpl in Hlisted. simpl.
  unfold includes. rewrite (bool_decide_eq_true_2 _ Hlisted).
  destruct (workerShouldRepaveRoom_spec rs worker A s Hco HArs)
    as (s1 & -> & Hag). rewrite Hno.
  destruct (scanRooms_spec rs worker (rooms colony) s1 Hco Hsub)
    as (s2 & -> & _). simpl.
  assert (shouldRepaveRoom G settings colony worker A s1 = false) as Hno1.
  { by rewrite (shouldRepaveRoom_agree rs worker A s s1 Hag HArs). }
  split.
  - intros [_ Hpred]%find_Some_elem. rewrite Hno1 in Hpred.
    by rewrite andb_false_r in Hpred.
  - intros Hothers. apply find_None_elem. intros r Hr.
    destruct (shouldRepaveRoom G settings colony worker r s1) eqn:Hr1;
      [|by rewrite andb_false_r].
    assert (r ≠ A) as Hne by (intros ->; congruence).
    specialize (Hothers r Hr Hne).
    destruct (workerShouldRepaveRoom_spec rs worker r s Hco (Hsub r Hr))
      as (s3 & Hrun & _). rewrite Hrun in Hothers. simpl in Hothers.
    rewrite (shouldRepaveRoom_agree rs worker r s s1 Hag (Hsub r Hr)) in Hr1.
    by rewrite Hr1 in Hothers.
Qed.

End Decision.

(** ** The assignment registry *)

Section Registry.

Context (G : Env) (colony : Colony).

Lemma includes_true l n : includes l n = true ↔ n ∈ l.
Proof. unfold includes. apply bool_decide_eq_true. Qed.

Lemma includes_false l n : includes l n = false ↔ n ∉ l.
Proof. unfold includes. apply bool_decide_eq_false. Qed.

Lemma registerWorkerAssignment_twice worker room s :
  registerWorkerAssignment worker room (registerWorkerAssignment worker room s).2
  = registerWorkerAssignment worker room s.
Proof.
  unfold registerWorkerAssignment.
  destruct (_assignedWorkers s !! room_name room) as [l|] eqn:Hl.
  - destruct (includes l (zerg_name worker)) eqn:Hinc; simpl.
    + by rewrite Hl, Hinc.
    + rewrite lookup_insert_eq.
      assert (includes (l ++ [zerg_name worker]) (zerg_name worker) = true) as ->; [|done].
      apply includes_true, elem_of_app. right. by left.
  - simpl. rewrite lookup_insert_eq.
    assert (includes [zerg_name worker] (zerg_name worker) = true) as ->; [|done].
    apply includes_true. by left.
Qed.

Lemma filter_eqb_absent (n : string) l :
  n ∉ l → List.filter (String.eqb n) l = [].
Proof.
  induction l as [|a l IH]; intros Hn; simpl; [done|].
  destruct (String.eqb_spec n a) as [->|_].
  - exfalso. apply Hn. by left.
  - apply IH. intros Hin. apply Hn. by right.
Qed.

Lemma filter_eqb_present (n : string) l :
  n ∈ l → (1 ≤ length (List.filter (String.eqb n) l))%nat.
Proof.
  induction 1 as [a l|a b l Hin IH]; simpl.
  - rewrite String.eqb_refl. simpl. lia.
  - destruct (String.eqb a b); simpl; lia.
Qed.

Lemma filter_eqb_nodup (n : string) l :
  NoDup l → (length (List.filter (String.eqb n) l) ≤ 1)%nat.
Proof.
  induction 1 as [|a l Ha Hl IH]; simpl; [lia|].
  destruct (String.eqb_spec n a) as [->|_]; [|done].
  by rewrite (filter_eqb_absent a l Ha).
Qed.

(** One registration brings the worker's count in the region's list to
    one when it was absent and leaves it alone otherwise. *)
Lemma occurrences_register worker room s :
  occurrences (zerg_name worker) room (registerWorkerAssignment worker room s).2
  = Nat.max 1 (occurrences (zerg_name worker) room s).
Proof.
  unfold occurrences, registerWorkerAssignment, assignedWorkers. simpl.
  destruct (_assignedWorkers s !! room_name room) as [l|] eqn:Hl; simpl.
  - destruct (includes l (zerg_name worker)) eqn:Hinc; simpl.
    + rewrite Hl. simpl. apply includes_true, filter_eqb_present in Hinc. lia.
    + rewrite lookup_insert_eq. simpl. apply includes_false in Hinc.
      rewrite List.filter_app, (filter_eqb_absent _ _ Hinc). simpl.
      by rewrite String.eqb_refl.
  - rewrite lookup_insert_eq. simpl. by rewrite String.eqb_refl.
Qed.

Lemma lists_nodup_register worker room s :
  lists_nodup s → lists_nodup (registerWorkerAssignment worker room s).2.
Proof.
  intros Hnd r l. unfold registerWorkerAssignment.
  destruct (_assignedWorkers s !! room_name room) as [l0|] eqn:Hl0.
  - destruct (includes l0 (zerg_name worker)) eqn:Hinc; simpl; [apply Hnd|].
    destruct (decide (room_name room = r)) as [<-|Hne].
    + rewrite lookup_insert_eq. intros [= <-].
      apply NoDup_app. split; [by eapply Hnd|]. split; [|apply NoDup_singleton].
      intros n Hn ->%list_elem_of_singleton. by apply includes_false in Hinc.
    + rewrite lookup_insert_ne by done. apply Hnd.
  - simpl. destruct (decide (room_name room = r)) as [<-|Hne].
    + rewrite lookup_insert_eq. intros [= <-]. apply NoDup_singleton.
    + rewrite lookup_insert_ne by done. apply Hnd.
Qed.

(** The registry after one step of [init]. *)
Lemma initWorker_registry worker t s :
  isRepairTask G (task worker) = Some t →
  _assignedWorkers (initWorker G worker s).2
  = <[roomName (targetPos t) :=
        default [] (_assignedWorkers s !! roomName (targetPos t))
        ++ [zerg_name worker]]> (_assignedWorkers s).
Proof.
  intros Ht. unfold initWorker. rewrite Ht. simpl.
  destruct (_assignedWorkers s !! roomName (targetPos t)) as [l|] eqn:Hl.
  - by rewrite Hl.
  - rewrite lookup_insert_eq. simpl. by rewrite insert_insert_eq.
Qed.

Lemma initWorker_skip worker s :
  isRepairTask G (task worker) = None → initWorker G worker s = (tt, s).
Proof. intros Ht. unfold initWorker. by rewrite Ht. Qed.

Lemma lists_nodup_initWorkers ws s :
  NoDup (zerg_name <$> ws) →
  lists_nodup s →
  (∀ r l w, _assignedWorkers s !! r = Some l → w ∈ l → w ∉ zerg_name <$> ws) →
  lists_nodup (initWorkers G ws s).2.
Proof.
  revert s. induction ws as [|worker ws IH]; intros s Hnames Hnd Hfresh; [done|].
  simpl. unfold bind.
  apply NoDup_cons in Hnames as [Hhead Hnames].
  destruct (isRepairTask G (task worker)) as [t|] eqn:Ht.
  - pose proof (initWorker_registry worker t s Ht) as Hreg.
    destruct (initWorker G worker s) as [[] s1]. simpl in Hreg.
    apply IH; [done| |].
    + intros r l. rewrite Hreg.
      destruct (decide (roomName (targetPos t) = r)) as [<-|Hne].
      * rewrite lookup_insert_eq. intros [= <-].
        apply NoDup_app. split; [|split; [|apply NoDup_singleton]].
        -- destruct (_assignedWorkers s !! _) eqn:Hl; [by eapply Hnd|apply NoDup_nil_2].
        -- intros n Hn ->%list_elem_of_singleton.
           destruct (_assignedWorkers s !! _) as [l0|] eqn:Hl; [|by apply elem_of_nil in Hn].
           apply (Hfresh _ _ _ Hl Hn). simpl. by left.
      * rewrite lookup_insert_ne by done. apply Hnd.
    + intros r l w. rewrite Hreg.
      destruct (decide (roomName (targetPos t) = r)) as [<-|Hne].
      * rewrite lookup_insert_eq. intros [= <-] [Hw|Hw]%elem_of_app.
        -- destruct (_assignedWorkers s !! _) as [l0|] eqn:Hl; [|by apply elem_of_nil in Hw].
           intros Hin. apply (Hfresh _ _ _ Hl Hw). simpl. by right.
        -- apply list_elem_of_singleton in Hw as ->. done.
      * rewrite lookup_insert_ne by done. intros Hl Hw Hin.
        apply (Hfresh _ _ _ Hl Hw). simpl. by right.
  - rewrite (initWorker_skip worker s Ht). apply IH; [done..|].
    intros r l w Hl Hw Hin. apply (Hfresh _ _ _ Hl Hw). simpl. by right.
Qed.

Lemma cycleState_lists_nodup s : cycleState G colony s → lists_nodup s.
Proof.
  induction 1 as [s Hnames|s worker room _ IH].
  - apply lists_nodup_initWorkers; [done| |]; intros r l; simpl;
      by rewrite lookup_empty.
  - by apply lists_nodup_register.
Qed.

(** C5: registering the same worker for the same region a second time
    changes nothing; the worker then occurs exactly once in the region's
    list whenever it occurred at most once before, which is the case in
    every registry of a planning cycle. *)
Theorem registerWorkerAssignment_idempotent worker room s :
  registerWorkerAssignment worker room (registerWorkerAssignment worker room s).2
  = registerWorkerAssignment worker room s ∧
  ((occurrences (zerg_name worker) room s ≤ 1)%nat →
   occurrences (zerg_name worker) room
     (registerWorkerAssignment worker room
        (registerWorkerAssignment worker room s).2).2 = 1%nat) ∧
  (cycleState G colony s →
   occurrences (zerg_name worker) room
     (registerWorkerAssignment worker room
        (registerWorkerAssignment worker room s).2).2 = 1%nat).
Proof.
  split; [apply registerWorkerAssignment_twice|].
  rewrite registerWorkerAssignment_twice, occurrences_register.
  split; [lia|].
  intros Hs%cycleState_lists_nodup.
  unfold occurrences, assignedWorkers. simpl.
  destruct (_assignedWorkers s !! room_name room) as [l|] eqn:Hl; simpl; [|done].
  pose proof (filter_eqb_nodup (zerg_name worker) l (Hs _ _ Hl)). lia.
Qed.

Lemma booked_at_unique home s : booked_at home s → unique_booking s.
Proof.
  intros Hb w r1 r2 l1 l2 H1 H2 Hw1 Hw2.
  by rewrite <- (Hb _ _ _ H1 Hw1), <- (Hb _ _ _ H2 Hw2).
Qed.

Lemma booked_at_refresh home s : booked_at home (refresh s).2.
Proof. intros r l w. simpl. by rewrite lookup_empty. Qed.

Lemma booked_at_register home worker room s :
  home (zerg_name worker) = room_name room →
  booked_at home s → booked_at home (registerWorkerAssignment worker room s).2.
Proof.
  intros Hhome Hb r l w. unfold registerWorkerAssignment.
  destruct (_assignedWorkers s !! room_name room) as [l0|] eqn:Hl0.
  - destruct (includes l0 (zerg_name worker)); simpl; [apply Hb|].
    destruct (decide (room_name room = r)) as [<-|Hne].
    + rewrite lookup_insert_eq. intros [= <-] [Hw|Hw]%elem_of_app.
      * by eapply Hb.
      * by apply list_elem_of_singleton in Hw as ->.
    + rewrite lookup_insert_ne by done. apply Hb.
  - simpl. destruct (decide (room_name room = r)) as [<-|Hne].
    + rewrite lookup_insert_eq. intros [= <-] Hw.
      by apply list_elem_of_singleton in Hw as ->.
    + rewrite lookup_insert_ne by done. apply Hb.
Qed.

Lemma booked_at_initWorkers home ws s :
  (∀ w t, w ∈ ws → isRepairTask G (task w) = Some t →
          home (zerg_name w) = roomName (targetPos t)) →
  booked_at home s → booked_at home (initWorkers G ws s).2.
Proof.
  revert s. induction ws as [|worker ws IH]; intros s Hhome Hb; [done|].
  simpl. unfold bind.
  assert (∀ w t, w ∈ ws → isRepairTask G (task w) = Some t →
                 home (zerg_name w) = roomName (targetPos t)) as Hhome'.
  { intros w t Hw. apply Hhome. by right. }
  destruct (isRepairTask G (task worker)) as [t|] eqn:Ht.
  - pose proof (initWorker_registry worker t s Ht) as Hreg.
    destruct (initWorker G worker s) as [[] s1]. simpl in Hreg.
    apply IH; [done|]. intros r l w. rewrite Hreg.
    destruct (decide (roomName (targetPos t) = r)) as [<-|Hne].
    + rewrite lookup_insert_eq. intros [= <-] [Hw|Hw]%elem_of_app.
      * destruct (_assignedWorkers s !! _) as [l0|] eqn:Hl;
          [by eapply Hb|by apply elem_of_nil in Hw].
      * apply list_elem_of_singleton in Hw as ->. apply Hhome; [by left|done].
    + rewrite lookup_insert_ne by done. apply Hb.
  - rewrite (initWorker_skip worker s Ht). by apply IH.
Qed.

Lemma booked_at_runOps home ops s :
  Forall (respects G colony home) ops →
  booked_at home s → booked_at home (runOps G colony ops s).2.
Proof.
  intros Hops. revert s.
  induction Hops as [|op ops Hop _ IH]; intros s Hb; [done|].
  simpl. unfold bind.
  destruct (runOp G colony op s) as [[] s1] eqn:Hrun. apply IH.
  replace s1 with (runOp G colony op s).2 by by rewrite Hrun.
  destruct op as [| |worker room]; simpl.
  - apply booked_at_refresh.
  - by apply booked_at_initWorkers.
  - by apply booked_at_register.
Qed.

(** C2, as the code has it: after [refresh], every sequence of [refresh],
    [init] and [registerWorkerAssignment] that pairs each worker with one
    and the same region keeps every worker under at most one region. *)
Theorem consistent_booking_unique home ops s :
  Forall (respects G colony home) ops →
  unique_booking (runOps G colony (OpRefresh :: ops) s).2.
Proof.
  intros Hops. apply (booked_at_unique home). simpl. unfold bind. simpl.
  apply booked_at_runOps; [done|].
  intros r l w. simpl. by rewrite lookup_empty.
Qed.

End Registry.

(** ** The road classifier *)

Section Classifier.

Context (G : Env) (settings : Settings) (colony : Colony).

Lemma elem_of_sortBy_insert {A} (key : A → nat) a b l :
  b ∈ sortBy_insert key a l ↔ b = a ∨ b ∈ l.
Proof.
  induction l as [|c l IH]; simpl.
  - rewrite list_elem_of_singleton, elem_of_nil. tauto.
  - destruct (key a <=? key c)%nat.
    + by rewrite elem_of_cons.
    + rewrite !elem_of_cons, IH. tauto.
Qed.

(** Sorting keeps exactly the elements it was given. *)
Lemma elem_of_sortBy {A} (key : A → nat) a l :
  a ∈ sortBy l key ↔ a ∈ l.
Proof.
  unfold sortBy. induction l as [|b l IH]; simpl; [done|].
  by rewrite elem_of_sortBy_insert, elem_of_cons, IH.
Qed.


Lemma NtoQ_nonneg n : (0 <= NtoQ n)%Q.
Proof.
  unfold NtoQ, Qle. simpl. lia.
Qed.

(** A road below a threshold is below every larger threshold. *)
Lemma needsRepair_mono (low high : Q) road :
  (low <= high)%Q →
  needsRepair colony low road = true → needsRepair colony high road = true.
Proof.
  intros Hle. unfold needsRepair, Qltb.
  rewrite !andb_true_iff, !negb_true_iff.
  intros [Hlow Hplan]. split; [|done].
  apply not_true_iff_false. rewrite Qle_bool_iff. intros Hhigh.
  apply not_true_iff_false in Hlow. apply Hlow, Qle_bool_iff.
  eapply Qle_trans; [|apply Hhigh].
  rewrite !(Qmult_comm (NtoQ (hitsMax road))).
  apply Qmult_le_compat_r; [done|apply NtoQ_nonneg].
Qed.

Lemma computeCritical_subset room road :
  (criticalThreshold settings <= repairThreshold settings)%Q →
  road ∈ computeCriticalRoads G settings colony room →
  road ∈ computeRepairableRoads G settings colony room.
Proof.
  intros Hle. unfold computeCriticalRoads, computeRepairableRoads.
  rewrite !elem_of_sortBy, !list_elem_of_In, !filter_In.
  intros [Hin Hlow]. split; [done|]. by eapply needsRepair_mono.
Qed.

(** C6: with [criticalThreshold ≤ repairThreshold], when both lists are
    computed from the room's current roads (neither is answered from the
    cache), every critical road is also a repairable road. *)
Theorem critical_subset_repairable room s road :
  (criticalThreshold settings <= repairThreshold settings)%Q →
  GlobalCache.live (Game_time G) ROAD_CACHE_TIMEOUT
    (cache_structures s !! (ref colony, "criticalRoads:" +:+ room_name room)) = None →
  GlobalCache.live (Game_time G) ROAD_CACHE_TIMEOUT
    (cache_structures s !! (ref colony, "repairableRoads:" +:+ room_name room)) = None →
  road ∈ (criticalRoads G settings colony room s).1 →
  road ∈ (repairableRoads G settings colony room s).1.
Proof.
  intros Hle Hcrit Hrep.
  unfold criticalRoads, repairableRoads, GlobalCache.structures.
  rewrite Hcrit, Hrep. simpl. by apply computeCritical_subset.
Qed.

End Classifier.

(** ** The paving manifest *)

Section Manifest.

Context (G : Env) (settings : Settings) (colony : Colony).

(** Once [repairableRoads] has answered, asking again gives the same
    list and changes nothing. *)
Lemma repairableRoads_settled room s :
  repairableRoads G settings colony room (repairableRoads G settings colony room s).2
  = repairableRoads G settings colony room s.
Proof.
  unfold repairableRoads, GlobalCache.structures.
  destruct (GlobalCache.live _ _ (cache_structures s !! _)) as [v|] eqn:Hlive; simpl.
  - by rewrite Hlive.
  - by rewrite lookup_insert_eq, live_now.
Qed.

Lemma pavingLoop_settle fuel room energy targetRefs tasks previousPos s :
  (pavingLoop G settings colony fuel room energy targetRefs tasks previousPos s).1
  = (pavingLoop G settings colony fuel room energy targetRefs tasks previousPos
       (repairableRoads G settings colony room s).2).1.
Proof.
  destruct fuel as [|fuel]; simpl; [done|].
  destruct (Qle_bool energy 0); [done|].
  unfold bind. rewrite repairableRoads_settled.
  by destruct (repairableRoads G settings colony room s) as [l s1].
Qed.

Lemma eligible_true targetRefs previousPos road :
  eligible G targetRefs previousPos road = true →
  (hits road < hitsMax road)%N ∧
  targeted targetRefs road = false ∧
  ∀ p, previousPos = Some p → inRange1 G (pos road) p = true.
Proof.
  unfold eligible. destruct previousPos as [p|];
    rewrite ?andb_true_iff, negb_true_iff, N.ltb_lt.
  - intros [[? ?] ?]. repeat split; [done..|]. by intros ? [= <-].
  - intros [? ?]. by repeat split.
Qed.

Lemma contiguous_snoc tasks t :
  contiguous G tasks →
  (∀ p, last tasks = Some p → inRange1 G (targetPos t) (targetPos p) = true) →
  contiguous G (tasks ++ [t]).
Proof.
  induction tasks as [|t1 [|t2 rest] IH]; intros Hc Hlast.
  - done.
  - simpl. split; [by apply Hlast|done].
  - destruct Hc as [Hhead Htail]. split; [done|]. apply IH; [done|].
    intros p Hp. by apply Hlast.
Qed.

(** What the loop maintains between iterations. *)
Lemma pavingLoop_chain fuel room l s :
  repairableRoads G settings colony room s = (l, s) →
  ∀ energy targetRefs tasks previousPos res,
    NoDup (targetRef <$> tasks) →
    (∀ t, t ∈ tasks → targetRefs !! targetRef t = Some true) →
    contiguous G tasks →
    previousPos = targetPos <$> last tasks →
    (pavingLoop G settings colony fuel room energy targetRefs tasks previousPos s).1
    = Some res →
    NoDup (targetRef <$> res) ∧ contiguous G res.
Proof.
  intros Hs. induction fuel as [|fuel IH];
    intros energy targetRefs tasks previousPos res Hnd Hmarked Hcont Hprev; simpl;
    [done|].
  destruct (Qle_bool energy 0); [by intros [= <-]|].
  unfold bind. rewrite Hs.
  destruct (find _ l) as [target|] eqn:Hfind; [|by intros [= <-]].
  apply find_Some_elem in Hfind as [Hin Hel].
  apply eligible_true in Hel as (_ & Hfree & Hnear).
  apply IH.
  - rewrite fmap_app. apply NoDup_app. split; [done|].
    split; [|apply NoDup_singleton].
    intros i [t [-> Ht]]%list_elem_of_fmap Hi. simpl in Hi.
    apply list_elem_of_singleton in Hi.
    unfold targeted in Hfree. rewrite <- Hi, (Hmarked t Ht) in Hfree. done.
  - intros t [Ht|Ht]%elem_of_app.
    + destruct (decide (id target = targetRef t)) as [->|Hne].
      * by rewrite lookup_insert_eq.
      * rewrite lookup_insert_ne by done. by apply Hmarked.
    + apply list_elem_of_singleton in Ht as ->. simpl. by rewrite lookup_insert_eq.
  - apply contiguous_snoc; [done|]. intros p Hp. simpl.
    apply Hnear. by rewrite Hprev, Hp.
  - by rewrite last_snoc.
Qed.

Lemma filter_length_le {A} (p q : A → bool) l :
  (∀ a, q a = true → p a = true) →
  (length (List.filter q l) ≤ length (List.filter p l))%nat.
Proof.
  intros Hqp. induction l as [|a l IH]; simpl; [done|].
  destruct (q a) eqn:Hq.
  - rewrite (Hqp a Hq). simpl. lia.
  - destruct (p a); simpl; lia.
Qed.

Lemma filter_length_lt {A} (p q : A → bool) l a0 :
  (∀ a, q a = true → p a = true) →
  a0 ∈ l → p a0 = true → q a0 = false →
  (length (List.filter q l) < length (List.filter p l))%nat.
Proof.
  intros Hqp Hin Hp Hq. induction Hin as [a0 l|a0 b l Hin IH]; simpl.
  - rewrite Hp, Hq. simpl. pose proof (filter_length_le p q l Hqp). lia.
  - specialize (IH Hp Hq). destruct (q b) eqn:Hqb.
    + rewrite (Hqp b Hqb). simpl. lia.
    + destruct (p b); simpl; lia.
Qed.

(** Marking a free road of the list leaves fewer free roads. *)
Lemma untargeted_shrinks targetRefs l target :
  target ∈ l → targeted targetRefs target = false →
  (length (untargeted (<[id target := true]> targetRefs) l)
   < length (untargeted targetRefs l))%nat.
Proof.
  intros Hin Hfree. unfold untargeted.
  apply (filter_length_lt _ _ l target); [|done|by rewrite Hfree|].
  - intros road. unfold targeted.
    destruct (decide (id target = id road)) as [->|Hne].
    + by rewrite lookup_insert_eq.
    + by rewrite lookup_insert_ne.
  - unfold targeted. by rewrite lookup_insert_eq.
Qed.

(** The loop stops: each iteration marks one more road of the list. *)
Lemma pavingLoop_terminates fuel room l s :
  repairableRoads G settings colony room s = (l, s) →
  ∀ energy targetRefs tasks previousPos,
    (length (untargeted targetRefs l) < fuel)%nat →
    ∃ res,
      pavingLoop G settings colony fuel room energy targetRefs tasks previousPos s
      = (Some res, s).
Proof.
  intros Hs. induction fuel as [|fuel IH];
    intros energy targetRefs tasks previousPos Hfuel; [lia|]. simpl.
  destruct (Qle_bool energy 0); [by eexists|].
  unfold bind. rewrite Hs.
  destruct (find _ l) as [target|] eqn:Hfind; [|by eexists].
  apply find_Some_elem in Hfind as [Hin Hel].
  apply eligible_true in Hel as (_ & Hfree & _).
  apply IH. pose proof (untargeted_shrinks targetRefs l target Hin Hfree). lia.
Qed.

Lemma length_untargeted targetRefs l :
  (length (untargeted targetRefs l) ≤ length l)%nat.
Proof. unfold untargeted. apply List.filter_length_le. Qed.

(** C7: given fuel for one iteration per repairable road and one more,
    [buildPavingManifest] returns; the chain it returns targets no
    structure id twice, and each action after the first lies within
    range 1 of the one before it. *)
Theorem manifest_distinct_and_contiguous fuel worker room s :
  (length (repairableRoads G settings colony room s).1 < fuel)%nat →
  ∃ res,
    (buildPavingManifest G settings colony fuel worker room s).1 = Some res ∧
    ∀ chain, res = Some chain →
      NoDup (targetRef <$> chain) ∧ contiguous G chain.
Proof.
  intros Hfuel.
  pose proof (repairableRoads_settled room s) as Hs.
  destruct (repairableRoads G settings colony room s) as [l s1] eqn:Hrun.
  simpl in Hs, Hfuel.
  assert (∃ tasks,
             (pavingLoop G settings colony fuel room (NtoQ (carry_energy worker))
                ∅ [] None s).1 = Some tasks ∧
             NoDup (targetRef <$> tasks) ∧ contiguous G tasks)
    as (tasks & Hloop & Hnd & Hcont).
  { rewrite pavingLoop_settle, Hrun. simpl.
    destruct (pavingLoop_terminates fuel room l s1 Hs
                (NtoQ (carry_energy worker)) ∅ [] None) as [tasks Htasks].
    { pose proof (length_untargeted ∅ l). lia. }
    exists tasks. rewrite Htasks. split; [done|].
    apply (pavingLoop_chain fuel room l s1 Hs
             (NtoQ (carry_energy worker)) ∅ [] None tasks);
      [apply NoDup_nil_2|by intros t ?%elem_of_nil|done|done|by rewrite Htasks]. }
  exists (Tasks.chain tasks). split.
  - unfold buildPavingManifest, bind.
    destruct (pavingLoop _ _ _ _ _ _ _ _ _ s) as [r s2]. simpl in *.
    by rewrite Hloop.
  - intros chain Hchain. destruct tasks; [done|]. by injection Hchain as <-.
Qed.

Lemma buildPavingManifest_loop fuel worker room s :
  (buildPavingManifest G settings colony fuel worker room s).1
  = Tasks.chain <$>
      (pavingLoop G settings colony fuel room (NtoQ (carry_energy worker))
         ∅ [] None s).1.
Proof.
  unfold buildPavingManifest, bind. by destruct (pavingLoop _ _ _ _ _ _ _ _ _ s).
Qed.

Lemma pavingLoop_step fuel room l s energy targetRefs tasks previousPos target :
  repairableRoads G settings colony room s = (l, s) →
  Qle_bool energy 0 = false →
  List.find (eligible G targetRefs previousPos) l = Some target →
  pavingLoop G settings colony (S fuel) room energy targetRefs tasks previousPos s
  = pavingLoop G settings colony fuel room (energy - repairCost G target)%Q
      (<[id target := true]> targetRefs)
      (tasks ++ [Tasks.repair (repairTaskName G) target])
      (Some (pos target)) s.
Proof. intros Hs He Hfind. simpl. unfold bind. by rewrite He, Hs, Hfind. Qed.

Lemma Qle_bool_positive (e : Q) : (0 < e)%Q → Qle_bool e 0 = false.
Proof.
  intros Hpos. apply not_true_iff_false. rewrite Qle_bool_iff.
  by apply Qlt_not_le.
Qed.

Lemma repairCost_positive road :
  (0 < repairCost G road)%Q → (hits road < hitsMax road)%N.
Proof.
  unfold repairCost, NtoQ, Qlt, Qdiv, Qminus, Qmult, Qplus, Qopp, Qinv. simpl. lia.
Qed.

(** C1, as the code has it: with three repairable roads listed in the
    order of their anchor distance, each 10 energy short and each within
    range 1 of the one before, a worker carrying 25 energy is given all
    three roads: 5 energy is left after the second road, and the loop
    only stops once nothing is left. *)
Theorem manifest_three_roads fuel worker room s r1 r2 r3 :
  (repairableRoads G settings colony room s).1 = [r1; r2; r3] →
  id r1 ≠ id r2 → id r1 ≠ id r3 → id r2 ≠ id r3 →
  (repairCost G r1 == 10)%Q → (repairCost G r2 == 10)%Q →
  (repairCost G r3 == 10)%Q →
  inRange1 G (pos r2) (pos r1) = true →
  inRange1 G (pos r3) (pos r2) = true →
  carry_energy worker = 25%N →
  (4 ≤ fuel)%nat →
  (buildPavingManifest G settings colony fuel worker room s).1
  = Some (Some (Tasks.repair (repairTaskName G) <$> [r1; r2; r3])) ∧
  (sum [r1; r2; r3] (repairCost G) == 30)%Q.
Proof.
  intros Hlist H12 H13 H23 Hc1 Hc2 Hc3 Hn21 Hn32 Henergy Hfuel.
  assert (hits r1 < hitsMax r1)%N as Hw1
    by (apply repairCost_positive; by rewrite Hc1).
  assert (hits r2 < hitsMax r2)%N as Hw2
    by (apply repairCost_positive; by rewrite Hc2).
  assert (hits r3 < hitsMax r3)%N as Hw3
    by (apply repairCost_positive; by rewrite Hc3).
  apply N.ltb_lt in Hw1, Hw2, Hw3.
  split; [|unfold sum; simpl; by rewrite Hc1, Hc2, Hc3].
  pose proof (repairableRoads_settled room s) as Hs.
  destruct (repairableRoads G settings colony room s) as [l s1] eqn:Hrun.
  simpl in Hs, Hlist. subst l.
  rewrite buildPavingManifest_loop, pavingLoop_settle, Hrun, Henergy. simpl snd.
  do 4 (destruct fuel as [|fuel]; [lia|]).
  rewrite (pavingLoop_step _ _ _ _ _ _ _ _ r1 Hs); [|done|]; cycle 1.
  { simpl. unfold targeted. by rewrite Hw1, lookup_empty. }
  rewrite (pavingLoop_step _ _ _ _ _ _ _ _ r2 Hs); cycle 1.
  { apply Qle_bool_positive. by rewrite Hc1. }
  { simpl. unfold targeted.
    rewrite lookup_insert_eq, andb_false_r. simpl.
    by rewrite lookup_insert_ne, lookup_empty, Hw2, Hn21. }
  rewrite (pavingLoop_step _ _ _ _ _ _ _ _ r3 Hs); cycle 1.
  { apply Qle_bool_positive. by rewrite Hc1, Hc2. }
  { simpl. unfold targeted.
    rewrite (lookup_insert_ne _ (id r2) (id r1)), !lookup_insert_eq by done.
    simpl. rewrite !andb_false_r. simpl.
    rewrite !lookup_insert_ne, lookup_empty by done. simpl.
    by rewrite Hw3, Hn32. }
  simpl.
  assert (Qle_bool (NtoQ 25 - repairCost G r1 - repairCost G r2
                    - repairCost G r3) 0 = true) as ->; [|done].
  apply Qle_bool_iff. by rewrite Hc1, Hc2, Hc3.
Qed.

End Manifest.

(** ** The properties on the sample colony *)

Section Instances.

Import Sample.

Lemma sample_coherent : coherent (done_room :: rooms colony).
Proof.
  intros r1 r2 H1 H2 Hname. simpl in H1, H2.
  repeat (apply elem_of_cons in H1 as [->|H1]);
    try (by apply elem_of_nil in H1);
    repeat (apply elem_of_cons in H2 as [->|H2]);
    try (by apply elem_of_nil in H2);
    done.
Qed.

Lemma sample_others_fail r :
  r ∈ rooms colony → r ≠ done_room →
  isRoomActive colony (room_name r) && isSafe r
  && (workerShouldRepaveRoom env default_settings colony mender r started).1 = false.
Proof.
  intros Hr Hne. simpl in Hr.
  repeat (apply elem_of_cons in Hr as [->|Hr]);
    try (by apply elem_of_nil in Hr); try done; by vm_compute.
Qed.

Lemma sample_respects :
  Forall (respects env colony home_of)
    [OpInit; OpRegister paver home; OpRegister helper home; OpRegister paver home].
Proof.
  repeat constructor.
  intros w t Hw. simpl in Hw.
  repeat (apply elem_of_cons in Hw as [->|Hw]);
    try (by apply elem_of_nil in Hw); vm_compute; by intros [= <-].
Qed.

(** C1, the scenario run on the code: the chain has three actions. *)
Lemma manifest_scenario_counterexample :
  (buildPavingManifest env default_settings colony 4 paver home empty_state).1
  = Some (Some (Tasks.repair "repair" <$> [road1; road2; road3])) ∧
  ¬ ∃ chain,
      (buildPavingManifest env default_settings colony 4 paver home empty_state).1
      = Some (Some chain) ∧ length chain = 2%nat.
Proof.
  assert ((buildPavingManifest env default_settings colony 4 paver home empty_state).1
          = Some (Some (Tasks.repair "repair" <$> [road1; road2; road3]))) as Hrun
    by by vm_compute.
  split; [done|]. rewrite Hrun. by intros (chain & [= <-] & Hlen).
Qed.

Lemma manifest_three_roads_witness :
  (buildPavingManifest env default_settings colony 4 paver home empty_state).1
  = Some (Some (Tasks.repair "repair" <$> [road1; road2; road3])) ∧
  (sum [road1; road2; road3] (repairCost env) == 30)%Q.
Proof.
  apply (manifest_three_roads env default_settings colony 4 paver home
           empty_state road1 road2 road3).
  - vm_compute. reflexivity.
  - discriminate.
  - discriminate.
  - discriminate.
  - vm_compute. reflexivity.
  - vm_compute. reflexivity.
  - vm_compute. reflexivity.
  - vm_compute. reflexivity.
  - vm_compute. reflexivity.
  - reflexivity.
  - lia.
Defined.

(** C2, a cycle in which the driver registers one worker for two
    regions: the worker ends up listed under both. *)
Lemma double_booking_counterexample :
  ¬ unique_booking
      (runOps env colony
         [OpRefresh; OpInit; OpRegister paver home; OpRegister paver outpost]
         empty_state).2.
Proof.
  intros Huniq.
  specialize (Huniq "paver" "W1N1" "W2N1" ["paver"] ["paver"]).
  assert ("W1N1" = "W2N1") as Heq; [|discriminate Heq].
  apply Huniq; try (vm_compute; reflexivity); by left.
Qed.

Lemma consistent_booking_unique_witness :
  unique_booking
    (runOps env colony
       [OpRefresh; OpInit; OpRegister paver home; OpRegister helper home;
        OpRegister paver home]
       empty_state).2.
Proof.
  apply (consistent_booking_unique env colony home_of). apply sample_respects.
Defined.

Lemma capacity_rejects_witness :
  (workerShouldRepaveRoom env default_settings colony helper home booked).1 = false ∧
  (workerShouldRepaveRoom env default_settings colony mender home booked).1 = false.
Proof.
  split.
  - apply (proj1 (capacity_rejects env default_settings colony helper home booked)).
    vm_compute. lia.
  - apply (proj2 (capacity_rejects env default_settings colony mender home booked)
             eq_refl "paver").
    + vm_compute. left.
    + discriminate.
Defined.

Lemma finished_region_not_returned_witness :
  (workerShouldRepave env default_settings colony mender started).1 ≠ Some done_room ∧
  (workerShouldRepave env default_settings colony mender started).1 = None.
Proof.
  destruct (finished_region_not_returned env default_settings colony mender
              (mkTask "repair" (mkPos 7 7 "W3N1") "r9") done_room started)
    as [Hnot Hnone].
  - reflexivity.
  - reflexivity.
  - vm_compute. reflexivity.
  - apply sample_coherent.
  - vm_compute. left.
  - vm_compute. reflexivity.
  - split; [exact Hnot|]. apply Hnone. apply sample_others_fail.
Defined.

Lemma registerWorkerAssignment_idempotent_witness :
  registerWorkerAssignment paver home (registerWorkerAssignment paver home started).2
  = registerWorkerAssignment paver home started ∧
  occurrences "paver" home
    (registerWorkerAssignment paver home
       (registerWorkerAssignment paver home started).2).2 = 1%nat ∧
  occurrences "paver" home
    (registerWorkerAssignment paver home
       (registerWorkerAssignment paver home started).2).2 = 1%nat.
Proof.
  destruct (registerWorkerAssignment_idempotent env colony paver home started)
    as (Hsame & Hfew & Hcycle).
  split; [exact Hsame|]. split.
  - apply Hfew. vm_compute. lia.
  - apply Hcycle. unfold started. apply cycle_init.
    apply (bool_decide_unpack (NoDup (zerg_name <$> workers colony))).
    vm_compute. exact I.
Defined.

Lemma critical_subset_repairable_witness :
  road4 ∈ (repairableRoads env default_settings colony outpost empty_state).1.
Proof.
  apply (critical_subset_repairable env default_settings colony outpost
           empty_state road4).
  - vm_compute. discriminate.
  - vm_compute. reflexivity.
  - vm_compute. reflexivity.
  - vm_compute. left.
Defined.

Lemma manifest_distinct_and_contiguous_witness :
  ∃ res,
    (buildPavingManifest env default_settings colony 4 paver home empty_state).1
    = Some res ∧
    ∀ chain, res = Some chain →
      NoDup (targetRef <$> chain) ∧ contiguous env chain.
Proof.
  apply (manifest_distinct_and_contiguous env default_settings colony 4 paver
           home empty_state).
  vm_compute. lia.
Defined.

Lemma assignedWorkers_total_witness :
  (∃ l, assignedWorkers home empty_state = (l, empty_state)) ∧
  assignedWorkers home empty_state = ([], empty_state).
Proof.
  destruct (assignedWorkers_total home empty_state) as [Htotal Hempty].
  split; [exact Htotal|]. apply Hempty. vm_compute. reflexivity.
Defined.

Lemma unknown_task_room_falls_through_witness :
  workerShouldRepave env default_settings colony stray started
  = scanRooms env default_settings colony stray (rooms colony) started.
Proof.
  apply (unknown_task_room_falls_through env default_settings colony stray
           (mkTask "repair" (mkPos 7 7 "E9S9") "r8") started).
  - reflexivity.
  - reflexivity.
  - vm_compute. reflexivity.
Defined.

End Instances.


(** * Further properties of the code *)

(** ** Rebuilding and extending the registry *)

Section RegistryMore.

Context (G : Env) (settings : Settings) (colony : Colony).

Lemma initWorkers_appends ws s name :
  default [] (_assignedWorkers (initWorkers G ws s).2 !! name)
  = default [] (_assignedWorkers s !! name)
    ++ (zerg_name <$> List.filter (repairingIn G name) ws).
Proof.
  revert s. induction ws as [|worker ws IH]; intros s; simpl.
  { by rewrite app_nil_r. }
  unfold bind, repairingIn at 1.
  destruct (isRepairTask G (task worker)) as [t|] eqn:Ht.
  - pose proof (initWorker_registry G worker t s Ht) as Hreg.
    destruct (initWorker G worker s) as [[] s1]. simpl in Hreg.
    rewrite IH, Hreg.
    destruct (String.eqb_spec (roomName (targetPos t)) name) as [<-|Hne].
    + rewrite lookup_insert_eq. simpl. by rewrite <- app_assoc.
    + by rewrite lookup_insert_ne.
  - rewrite (initWorker_skip G worker s Ht). apply IH.
Qed.

Lemma fmap_nodup_inj {A B} (f : A → B) (l : list A) a b :
  NoDup (f <$> l) → a ∈ l → b ∈ l → f a = f b → a = b.
Proof.
  induction l as [|c l IH]; intros Hnd Ha Hb Hf; [by apply elem_of_nil in Ha|].
  simpl in Hnd. apply NoDup_cons in Hnd as [Hc Hnd].
  apply elem_of_cons in Ha as [->|Ha]; apply elem_of_cons in Hb as [->|Hb].
  - done.
  - exfalso. apply Hc. rewrite Hf. by apply list_elem_of_fmap_2.
  - exfalso. apply Hc. rewrite <- Hf. by apply list_elem_of_fmap_2.
  - by apply IH.
Qed.

Lemma elem_of_repairing name ws n :
  n ∈ zerg_name <$> List.filter (repairingIn G name) ws →
  ∃ w, w ∈ ws ∧ zerg_name w = n ∧ repairingIn G name w = true.
Proof.
  intros (w & -> & Hw)%list_elem_of_fmap.
  apply list_elem_of_In, filter_In in Hw as [Hw Hrep].
  exists w. by rewrite list_elem_of_In.
Qed.

Lemma repairingIn_room name1 name2 w :
  repairingIn G name1 w = true → repairingIn G name2 w = true → name1 = name2.
Proof.
  unfold repairingIn. destruct (isRepairTask G (task w)) as [t|]; [|done].
  by intros <-%String.eqb_eq <-%String.eqb_eq.
Qed.

(** X1: [init] appends to every region's list the names of the workers
    of the pool whose repair task targets that region, in pool order, and
    keeps what the list held; after [refresh] the list is exactly those
    names. *)
Theorem init_books_repairing_workers room s :
  (assignedWorkers room (init G colony s).2).1
  = (assignedWorkers room s).1
    ++ (zerg_name <$> List.filter (repairingIn G (room_name room)) (workers colony)) ∧
  (assignedWorkers room (init G colony (refresh s).2).2).1
  = zerg_name <$> List.filter (repairingIn G (room_name room)) (workers colony).
Proof.
  unfold assignedWorkers, init. simpl. rewrite !initWorkers_appends. simpl.
  by rewrite lookup_empty.
Qed.

(** X2: when the workers of the pool have pairwise distinct names, the
    registry that [init] builds after [refresh] lists no worker under two
    regions and no worker twice in one list. *)
Theorem init_after_refresh_books_once s :
  NoDup (zerg_name <$> workers colony) →
  unique_booking (init G colony (refresh s).2).2 ∧
  lists_nodup (init G colony (refresh s).2).2.
Proof.
  intros Hnames. split; [|by apply (cycleState_lists_nodup G colony), cycle_init].
  intros n r1 r2 l1 l2 H1 H2 Hn1 Hn2.
  pose proof (initWorkers_appends (workers colony) (refresh s).2 r1) as Hl1.
  pose proof (initWorkers_appends (workers colony) (refresh s).2 r2) as Hl2.
  unfold init in H1, H2. rewrite H1 in Hl1. rewrite H2 in Hl2.
  simpl in Hl1, Hl2. rewrite lookup_empty in Hl1, Hl2. simpl in Hl1, Hl2.
  subst l1 l2.
  apply elem_of_repairing in Hn1 as (w1 & Hw1 & Hname1 & Hrep1).
  apply elem_of_repairing in Hn2 as (w2 & Hw2 & Hname2 & Hrep2).
  assert (w1 = w2) as ->.
  { apply (fmap_nodup_inj zerg_name (workers colony)); [done..|congruence]. }
  by eapply repairingIn_room.
Qed.

Lemma registerWorkerAssignment_lists worker room s :
  zerg_name worker
  ∈ default [] (_assignedWorkers (registerWorkerAssignment worker room s).2
                !! room_name room).
Proof.
  unfold registerWorkerAssignment.
  destruct (_assignedWorkers s !! room_name room) as [l|] eqn:Hl; simpl.
  - destruct (includes l (zerg_name worker)) eqn:Hinc; simpl.
    + rewrite Hl. by apply includes_true in Hinc.
    + rewrite lookup_insert_eq. apply elem_of_app. right. by left.
  - rewrite lookup_insert_eq. by left.
Qed.

(** X3: [registerWorkerAssignment] lists the worker under the region,
    keeps the entries the region already had in front, adds at most one
    entry, and leaves the lists of all other regions as they are. *)
Theorem registerWorkerAssignment_books worker room s :
  let s' := (registerWorkerAssignment worker room s).2 in
  zerg_name worker ∈ (assignedWorkers room s').1 ∧
  (assignedWorkers room s).1 `prefix_of` (assignedWorkers room s').1 ∧
  (length (assignedWorkers room s').1 ≤ S (length (assignedWorkers room s).1))%nat ∧
  ∀ other, room_name other ≠ room_name room →
    (assignedWorkers other s').1 = (assignedWorkers other s).1.
Proof.
  unfold registerWorkerAssignment, assignedWorkers. simpl.
  destruct (_assignedWorkers s !! room_name room) as [l|] eqn:Hl; simpl.
  - destruct (includes l (zerg_name worker)) eqn:Hinc; simpl.
    + rewrite Hl. simpl. apply includes_true in Hinc.
      split; [done|]. split; [done|]. split; [lia|done].
    + rewrite lookup_insert_eq. simpl.
      split; [apply elem_of_app; right; by left|].
      split; [by apply prefix_app_r|].
      split; [rewrite length_app; simpl; lia|].
      intros other Hne. by rewrite lookup_insert_ne.
  - rewrite lookup_insert_eq. simpl.
    split; [by left|]. split; [apply prefix_nil|]. split; [lia|].
    intros other Hne. by rewrite lookup_insert_ne.
Qed.

(** X4: once a worker is registered for a region, and at most one paver
    is allowed per room, [workerShouldRepaveRoom] refuses that region to
    every worker with another name. *)
Theorem registered_region_is_closed worker other room s :
  (allowedPaversPerRoom settings ≤ 1)%nat →
  zerg_name other ≠ zerg_name worker →
  (workerShouldRepaveRoom G settings colony other room
     (registerWorkerAssignment worker room s).2).1 = false.
Proof.
  intros Hcap Hne.
  pose proof (registerWorkerAssignment_lists worker room s) as Hin.
  unfold workerShouldRepaveRoom, bind. simpl in *.
  set (assigned := default [] _) in *.
  assert (zerg_name worker
          ∈ List.filter (λ name, negb (String.eqb name (zerg_name other))) assigned)
    as Hother.
  { apply list_elem_of_In, filter_In. split; [by apply list_elem_of_In|].
    apply negb_true_iff, String.eqb_neq. congruence. }
  destruct (List.filter _ assigned) as [|n l]; [by apply elem_of_nil in Hother|].
  assert ((length (n :: l) <? allowedPaversPerRoom settings)%nat = false) as ->; [|done].
  apply Nat.ltb_ge. simpl. lia.
Qed.

End RegistryMore.

(** ** Which room a worker is sent to *)

Section DecisionMore.

Context (G : Env) (settings : Settings) (colony : Colony).

Lemma workerShouldRepaveRoom_peek rs worker room s :
  coherent rs → room ∈ rs →
  (workerShouldRepaveRoom G settings colony worker room s).1
  = shouldRepaveRoom G settings colony worker room s.
Proof.
  intros Hco Hroom.
  by destruct (workerShouldRepaveRoom_spec G settings colony rs worker room s Hco Hroom)
    as (s' & -> & _).
Qed.

Lemma coherent_sub rs rs' :
  coherent rs → (∀ r, r ∈ rs' → r ∈ rs) → coherent rs'.
Proof. intros Hco Hsub r1 r2 H1 H2. apply Hco; by apply Hsub. Qed.

(** A room found by the scan passes all three tests of the loop, the
    last one also in any earlier state that answers alike. *)
Lemma scanRooms_sound rs worker s s1 r :
  coherent rs → (∀ r, r ∈ rooms colony → r ∈ rs) →
  agree G settings colony rs s s1 →
  (scanRooms G settings colony worker (rooms colony) s1).1 = Some r →
  (workerShouldRepaveRoom G settings colony worker r s).1 = true ∧
  r ∈ rooms colony ∧
  isRoomActive colony (room_name r) = true ∧ isSafe r = true.
Proof.
  intros Hco Hsub Hag.
  destruct (scanRooms_spec G settings colony rs worker (rooms colony) s1 Hco Hsub)
    as (s2 & -> & _). simpl.
  intros [Hr Hpred]%find_Some_elem.
  apply andb_true_iff in Hpred as [[Hact Hsafe]%andb_true_iff Hneed].
  rewrite (workerShouldRepaveRoom_peek rs worker r s Hco (Hsub r Hr)).
  by rewrite <- (shouldRepaveRoom_agree G settings colony rs worker r s s1 Hag (Hsub r Hr)).
Qed.

(** X5: a worker on a repair task in a visible room, listed for that
    room, stays there as long as [workerShouldRepaveRoom] holds for it:
    the room is returned without a scan, whether or not it is one of the
    colony's rooms, active or safe. *)
Theorem continuing_worker_stays worker t A s :
  task worker = Some t → task_name t = repairTaskName G →
  Game_rooms G !! roomName (targetPos t) = Some A →
  zerg_name worker ∈ (assignedWorkers A s).1 →
  (workerShouldRepaveRoom G settings colony worker A s).1 = true →
  workerShouldRepave G settings colony worker s
  = (Some A, (workerShouldRepaveRoom G settings colony worker A s).2).
Proof.
  intros Htask Hname HA Hlisted Hneed. unfold workerShouldRepave.
  rewrite (isRepairTask_Some G worker t Htask Hname), HA.
  unfold bind. simpl in *. unfold includes.
  rewrite (bool_decide_eq_true_2 _ Hlisted).
  destruct (workerShouldRepaveRoom G settings colony worker A s) as [b s1].
  simpl in Hneed. by subst b.
Qed.

(** X6: a worker that holds no repair task is sent to the first of the
    colony's rooms, in their order, that is active, safe and in need of
    it as judged when the call starts; to none if there is no such room. *)
Theorem idle_worker_first_fit worker s :
  isRepairTask G (task worker) = None →
  coherent (rooms colony) →
  (workerShouldRepave G settings colony worker s).1
  = List.find (λ r, isRoomActive colony (room_name r) && isSafe r
                    && (workerShouldRepaveRoom G settings colony worker r s).1)
      (rooms colony).
Proof.
  intros Hidle Hco. unfold workerShouldRepave. rewrite Hidle.
  destruct (scanRooms_spec G settings colony (rooms colony) worker (rooms colony) s Hco)
    as (s' & -> & _); [done|]. simpl.
  apply find_ext_elem. intros r Hr.
  by rewrite (workerShouldRepaveRoom_peek (rooms colony) worker r s Hco Hr).
Qed.

(** X7: every room [workerShouldRepave] returns is one for which
    [workerShouldRepaveRoom] holds when the call starts, and it is either
    the room of the worker's repair task or an active, safe room of the
    colony. *)
Theorem returned_room_needs_worker worker r s :
  coherent (option_list (taskRoom G worker) ++ rooms colony) →
  (workerShouldRepave G settings colony worker s).1 = Some r →
  (workerShouldRepaveRoom G settings colony worker r s).1 = true ∧
  (taskRoom G worker = Some r ∨
   (r ∈ rooms colony ∧ isRoomActive colony (room_name r) = true ∧ isSafe r = true)).
Proof.
  intros Hco.
  set (rs := option_list (taskRoom G worker) ++ rooms colony) in *.
  assert (∀ r, r ∈ rooms colony → r ∈ rs) as Hsub.
  { intros r' Hr'. apply elem_of_app. by right. }
  assert (∀ s1, agree G settings colony rs s s1 →
            (scanRooms G settings colony worker (rooms colony) s1).1 = Some r →
            (workerShouldRepaveRoom G settings colony worker r s).1 = true ∧
            (taskRoom G worker = Some r ∨
             (r ∈ rooms colony ∧ isRoomActive colony (room_name r) = true
              ∧ isSafe r = true))) as Hscan.
  { intros s1 Hag Hfound.
    destruct (scanRooms_sound rs worker s s1 r Hco Hsub Hag Hfound) as (? & ? & ? & ?).
    split; [done|]. by right. }
  unfold workerShouldRepave, taskRoom in *.
  destruct (isRepairTask G (task worker)) as [t|]; [|apply Hscan, agree_refl].
  destruct (Game_rooms G !! roomName (targetPos t)) as [A|] eqn:HA;
    [|apply Hscan, agree_refl].
  unfold bind. simpl.
  destruct (includes _ _); [|apply Hscan, agree_refl].
  assert (A ∈ rs) as HArs by (apply elem_of_app; left; by left).
  destruct (workerShouldRepaveRoom_spec G settings colony rs worker A s Hco HArs)
    as (s1 & Hrun & Hag).
  rewrite Hrun. destruct (shouldRepaveRoom G settings colony worker A s) eqn:Hneed.
  - simpl. intros [= <-]. rewrite Hrun. simpl. split; [done|by left].
  - by apply Hscan.
Qed.

(** X8: within one cycle the answer of [workerShouldRepaveRoom] for a
    worker and a room does not depend on which other decision was asked
    for before it. *)
Theorem decision_independent_of_earlier_query rs worker0 room0 worker room s :
  coherent rs → room0 ∈ rs → room ∈ rs →
  (workerShouldRepaveRoom G settings colony worker room
     (workerShouldRepaveRoom G settings colony worker0 room0 s).2).1
  = (workerShouldRepaveRoom G settings colony worker room s).1.
Proof.
  intros Hco H0 Hroom.
  destruct (workerShouldRepaveRoom_spec G settings colony rs worker0 room0 s Hco H0)
    as (s1 & -> & Hag). simpl.
  rewrite !(workerShouldRepaveRoom_peek rs) by done.
  by apply (shouldRepaveRoom_agree G settings colony rs).
Qed.

Lemma Qle_bool_NtoQ_zero n : Qle_bool (NtoQ n) 0 = (n =? 0)%N.
Proof.
  destruct (N.eqb_spec n 0) as [->|Hne]; [done|].
  apply not_true_iff_false. rewrite Qle_bool_iff.
  unfold NtoQ, Qle. simpl. lia.
Qed.

(** X9: for a room without roads that lists nobody, with nothing held in
    the cache and at least one paver allowed, [workerShouldRepaveRoom]
    answers true exactly for a worker whose carry capacity is 0: the
    energy to repave is 0 and the test is [0 >= carryCapacity]. *)
Theorem roadless_room_decision worker room s :
  roads room = [] →
  cold G colony room s →
  _assignedWorkers s !! room_name room = None →
  (1 ≤ allowedPaversPerRoom settings)%nat →
  (workerShouldRepaveRoom G settings colony worker room s).1
  = (carryCapacity worker =? 0)%N.
Proof.
  intros Hroads (Hc & Hr & He) Hnone Hcap.
  assert (coherent [room]) as Hco.
  { intros r1 r2 ->%list_elem_of_singleton ->%list_elem_of_singleton. done. }
  rewrite (workerShouldRepaveRoom_peek [room] worker room s Hco) by by left.
  unfold shouldRepaveRoom, peekCritical, peekRepairable, peekEnergy, peekStructures.
  rewrite Hnone, Hc, He. simpl.
  unfold peekRepairable, peekStructures. rewrite Hr. simpl.
  unfold computeCriticalRoads, computeRepairableRoads. rewrite Hroads. simpl.
  assert ((0 <? allowedPaversPerRoom settings)%nat = true) as ->
    by (apply Nat.ltb_lt; lia).
  apply Qle_bool_NtoQ_zero.
Qed.

End DecisionMore.

(** ** What the classifier lists *)

Section ClassifierMore.

Context (G : Env) (settings : Settings) (colony : Colony).

Lemma sortBy_insert_perm {A} (key : A → nat) a l :
  sortBy_insert key a l ≡ₚ a :: l.
Proof.
  induction l as [|b l IH]; simpl; [done|].
  destruct (key a <=? key b)%nat; [done|].
  rewrite IH. apply Permutation_swap.
Qed.

Lemma sortBy_perm {A} (key : A → nat) l : sortBy l key ≡ₚ l.
Proof.
  unfold sortBy. induction l as [|a l IH]; simpl; [done|].
  by rewrite sortBy_insert_perm, IH.
Qed.

Lemma sortBy_insert_sorted {A} (key : A → nat) a l :
  StronglySorted (λ x y, (key x ≤ key y)%nat) l →
  StronglySorted (λ x y, (key x ≤ key y)%nat) (sortBy_insert key a l).
Proof.
  induction 1 as [|b l Hsorted IH Hb]; simpl.
  { repeat constructor. }
  destruct (Nat.leb_spec (key a) (key b)) as [Hle|Hlt].
  - constructor; [by constructor|]. constructor; [done|].
    eapply Forall_impl; [apply Hb|]. simpl. intros x Hx. lia.
  - constructor; [done|]. apply Forall_forall. intros x Hx.
    apply elem_of_sortBy_insert in Hx as [->|Hx]; [lia|].
    by apply (proj1 (Forall_forall _ _) Hb).
Qed.

Lemma sortBy_sorted {A} (key : A → nat) l :
  StronglySorted (λ x y, (key x ≤ key y)%nat) (sortBy l key).
Proof.
  unfold sortBy. induction l as [|a l IH]; simpl; [constructor|].
  by apply sortBy_insert_sorted.
Qed.

Lemma needsRepair_true threshold road :
  needsRepair colony threshold road = true ↔
  (NtoQ (hits road) < NtoQ (hitsMax road) * threshold)%Q ∧
  roadShouldBeHere colony (pos road) = true.
Proof.
  unfold needsRepair, Qltb. rewrite andb_true_iff, negb_true_iff.
  rewrite <- not_true_iff_false, Qle_bool_iff.
  split; intros [Hlt Hplan]; (split; [|done]).
  - by apply Qnot_le_lt.
  - by apply Qlt_not_le.
Qed.

Lemma criticalRoads_cold room s :
  cold G colony room s →
  (criticalRoads G settings colony room s).1 = computeCriticalRoads G settings colony room.
Proof.
  intros (Hc & _). unfold criticalRoads, GlobalCache.structures. by rewrite Hc.
Qed.

Lemma repairableRoads_cold room s :
  cold G colony room s →
  (repairableRoads G settings colony room s).1
  = computeRepairableRoads G settings colony room.
Proof.
  intros (_ & Hr & _). unfold repairableRoads, GlobalCache.structures. by rewrite Hr.
Qed.

Lemma energyToRepave_cold room s :
  cold G colony room s →
  (energyToRepave G settings colony room s).1
  = sum (computeRepairableRoads G settings colony room) (repairCost G).
Proof.
  intros (_ & Hr & He).
  unfold energyToRepave, GlobalCache.number. rewrite He. unfold bind.
  unfold repairableRoads, GlobalCache.structures. by rewrite Hr.
Qed.

(** X10: when the lists are computed afresh, [repairableRoads] holds
    exactly the roads of the room whose hits lie below [repairThreshold]
    times their maximum and that the room plan wants, and [criticalRoads]
    the same with [criticalThreshold]. *)
Theorem classifier_lists_exactly room s road :
  cold G colony room s →
  (road ∈ (repairableRoads G settings colony room s).1 ↔
   road ∈ roads room ∧
   (NtoQ (hits road) < NtoQ (hitsMax road) * repairThreshold settings)%Q ∧
   roadShouldBeHere colony (pos road) = true) ∧
  (road ∈ (criticalRoads G settings colony room s).1 ↔
   road ∈ roads room ∧
   (NtoQ (hits road) < NtoQ (hitsMax road) * criticalThreshold settings)%Q ∧
   roadShouldBeHere colony (pos road) = true).
Proof.
  intros Hcold.
  rewrite (repairableRoads_cold room s Hcold), (criticalRoads_cold room s Hcold).
  unfold computeRepairableRoads, computeCriticalRoads.
  by rewrite !elem_of_sortBy, !list_elem_of_In, !filter_In, !needsRepair_true.
Qed.

(** X11: when computed afresh, both lists are rearrangements of the
    filtered roads of the room, no road lost or repeated, in ascending
    order of their range to the colony's anchor. *)
Theorem classifier_lists_sorted room s :
  cold G colony room s →
  ((repairableRoads G settings colony room s).1
     ≡ₚ List.filter (needsRepair colony (repairThreshold settings)) (roads room) ∧
   StronglySorted (closerToAnchor G colony)
     (repairableRoads G settings colony room s).1) ∧
  ((criticalRoads G settings colony room s).1
     ≡ₚ List.filter (needsRepair colony (criticalThreshold settings)) (roads room) ∧
   StronglySorted (closerToAnchor G colony)
     (criticalRoads G settings colony room s).1).
Proof.
  intros Hcold.
  rewrite (repairableRoads_cold room s Hcold), (criticalRoads_cold room s Hcold).
  unfold computeRepairableRoads, computeCriticalRoads, closerToAnchor.
  repeat split; first [apply sortBy_perm|apply sortBy_sorted].
Qed.

Lemma NtoQ_lt a b : (NtoQ a < NtoQ b)%Q → (a < b)%N.
Proof. unfold NtoQ, Qlt. simpl. lia. Qed.

Lemma damaged_cost_positive road :
  damaged road = true → (0 < repairCost G road)%Q.
Proof.
  unfold damaged. rewrite N.ltb_lt. intros Hlt.
  unfold repairCost, NtoQ, Qlt, Qdiv, Qminus, Qmult, Qplus, Qopp, Qinv. simpl. lia.
Qed.

Lemma fold_left_Qplus_le (l : list Q) (acc : Q) :
  Forall (λ q, (0 <= q)%Q) l → (acc <= fold_left Qplus l acc)%Q.
Proof.
  intros Hl. revert acc. induction Hl as [|q l Hq _ IH]; intros acc; simpl.
  - apply Qle_refl.
  - eapply Qle_trans; [|apply IH].
    rewrite <- (Qplus_0_r acc) at 1. by apply Qplus_le_r.
Qed.

(** X12: with [repairThreshold] at most 1, every freshly listed
    repairable road has fewer hits than its maximum and so a positive
    repair cost, and the freshly computed energy to repave is not
    negative, and positive when there is a road to repair. *)
Theorem repairable_roads_cost_energy room s :
  (repairThreshold settings <= 1)%Q →
  cold G colony room s →
  (∀ road, road ∈ (repairableRoads G settings colony room s).1 →
     damaged road = true ∧ (0 < repairCost G road)%Q) ∧
  (0 <= (energyToRepave G settings colony room s).1)%Q ∧
  ((repairableRoads G settings colony room s).1 ≠ [] →
   (0 < (energyToRepave G settings colony room s).1)%Q).
Proof.
  intros Hthr Hcold.
  rewrite (repairableRoads_cold room s Hcold), (energyToRepave_cold room s Hcold).
  assert (∀ road, road ∈ computeRepairableRoads G settings colony room →
            damaged road = true ∧ (0 < repairCost G road)%Q) as Hroads.
  { intros road. unfold computeRepairableRoads.
    rewrite elem_of_sortBy, list_elem_of_In, filter_In, needsRepair_true.
    intros (_ & Hlow & _).
    assert (damaged road = true) as Hd; [|by split; [|apply damaged_cost_positive]].
    apply N.ltb_lt, NtoQ_lt. eapply Qlt_le_trans; [apply Hlow|].
    rewrite <- (Qmult_1_r (NtoQ (hitsMax road))) at 2.
    rewrite !(Qmult_comm (NtoQ (hitsMax road))).
    apply Qmult_le_compat_r; [done|apply NtoQ_nonneg]. }
  split; [done|].
  assert (Forall (λ q, (0 <= q)%Q)
            (map (repairCost G) (computeRepairableRoads G settings colony room)))
    as Hcosts.
  { apply Forall_forall. intros q (road & -> & Hroad)%list_elem_of_fmap.
    apply Qlt_le_weak, Hroads, Hroad. }
  split; [by apply fold_left_Qplus_le|].
  unfold sum. intros Hne.
  destruct (computeRepairableRoads G settings colony room) as [|road l] eqn:Hl;
    [done|]. simpl in *.
  apply Forall_cons in Hcosts as [_ Hcosts].
  eapply Qlt_le_trans; [|by apply fold_left_Qplus_le].
  rewrite Qplus_0_l. apply Hroads. by left.
Qed.

End ClassifierMore.

(** ** What the manifest holds *)

Section ManifestMore.

Context (G : Env) (settings : Settings) (colony : Colony).

Lemma fold_left_Qplus_acc (l : list Q) (acc : Q) :
  (fold_left Qplus l acc == acc + fold_left Qplus l 0)%Q.
Proof.
  revert acc. induction l as [|q l IH]; intros acc; simpl.
  - by rewrite Qplus_0_r.
  - rewrite (IH (acc + q)%Q), (IH (0 + q)%Q). ring.
Qed.

Lemma sum_cons {A} (f : A → Q) a l : (sum (a :: l) f == f a + sum l f)%Q.
Proof.
  unfold sum. simpl. rewrite fold_left_Qplus_acc. ring.
Qed.

Lemma eligible_first road :
  eligible G ∅ None road = damaged road.
Proof.
  unfold eligible, targeted, damaged. rewrite lookup_empty. simpl.
  apply andb_true_r.
Qed.

Lemma targetRef_repair name (picked : list StructureRoad) :
  targetRef <$> (Tasks.repair name <$> picked) = id <$> picked.
Proof.
  induction picked as [|r picked IH]; [done|].
  rewrite !fmap_cons. by rewrite IH.
Qed.

(** The roads the loop picks: each from the list and damaged, the first
    one the first eligible road, and all but the last paid for by the
    energy the loop started with. *)
Lemma pavingLoop_picks fuel room l s :
  repairableRoads G settings colony room s = (l, s) →
  ∀ energy targetRefs tasks previousPos res,
    (pavingLoop G settings colony fuel room energy targetRefs tasks previousPos s).1
    = Some res →
    ∃ picked,
      res = tasks ++ (Tasks.repair (repairTaskName G) <$> picked) ∧
      Forall (λ r, r ∈ l ∧ damaged r = true) picked ∧
      (picked ≠ [] → (sum (removelast picked) (repairCost G) < energy)%Q) ∧
      (picked = [] →
       Qle_bool energy 0 = true
       ∨ List.find (eligible G targetRefs previousPos) l = None) ∧
      (∀ road, head picked = Some road →
       Qle_bool energy 0 = false
       ∧ List.find (eligible G targetRefs previousPos) l = Some road).
Proof.
  intros Hs. induction fuel as [|fuel IH];
    intros energy targetRefs tasks previousPos res; simpl; [done|].
  destruct (Qle_bool energy 0) eqn:He.
  { intros [= <-]. exists []. simpl. rewrite app_nil_r.
    split; [done|]. split; [done|]. split; [done|]. split; [by left|done]. }
  unfold bind. rewrite Hs.
  destruct (find _ l) as [target|] eqn:Hfind.
  - intros (picked & -> & Hall & Hpaid & _ & _)%IH.
    exists (target :: picked). simpl.
    split; [by rewrite <- app_assoc|].
    pose proof (find_Some_elem _ _ _ Hfind) as [Hin Hel].
    apply eligible_true in Hel as (Hdam & _).
    split; [constructor; [split; [done|by apply N.ltb_lt]|done]|].
    split; [|split; [done|by intros road [= <-]]].
    intros _. destruct picked as [|r picked].
    + unfold sum. simpl. apply Qnot_le_lt. intros Hle.
      apply Qle_bool_iff in Hle. congruence.
    + change (removelast (target :: r :: picked))
        with (target :: removelast (r :: picked)).
      rewrite sum_cons.
      assert (sum (removelast (r :: picked)) (repairCost G)
              < energy - repairCost G target)%Q as Hrest by by apply Hpaid.
      apply (Qplus_lt_r _ _ (repairCost G target)) in Hrest.
      eapply Qlt_le_trans; [apply Hrest|].
      apply Qle_lteq. right. ring.
  - intros [= <-]. exists []. simpl. rewrite app_nil_r.
    split; [done|]. split; [done|]. split; [done|]. split; [by right|done].
Qed.

(** The loop run by [buildPavingManifest] from a state in which
    [repairableRoads] has answered. *)
Lemma buildPavingManifest_picks fuel worker room s :
  (length (repairableRoads G settings colony room s).1 < fuel)%nat →
  ∃ picked,
    (buildPavingManifest G settings colony fuel worker room s).1
    = Some (Tasks.chain (Tasks.repair (repairTaskName G) <$> picked)) ∧
    Forall (λ r, r ∈ (repairableRoads G settings colony room s).1
                 ∧ damaged r = true) picked ∧
    NoDup (id <$> picked) ∧
    (picked ≠ [] →
     (sum (removelast picked) (repairCost G) < NtoQ (carry_energy worker))%Q) ∧
    (picked = [] →
     Qle_bool (NtoQ (carry_energy worker)) 0 = true
     ∨ List.find damaged (repairableRoads G settings colony room s).1 = None) ∧
    (∀ road, head picked = Some road →
     Qle_bool (NtoQ (carry_energy worker)) 0 = false
     ∧ List.find damaged (repairableRoads G settings colony room s).1 = Some road).
Proof.
  intros Hfuel.
  pose proof (repairableRoads_settled G settings colony room s) as Hs.
  destruct (repairableRoads G settings colony room s) as [l s1] eqn:Hrun.
  simpl in Hs, Hfuel |- *.
  rewrite buildPavingManifest_loop, pavingLoop_settle, Hrun. simpl snd.
  destruct (pavingLoop_terminates G settings colony fuel room l s1 Hs
              (NtoQ (carry_energy worker)) ∅ [] None) as [tasks Htasks].
  { pose proof (length_untargeted ∅ l). lia. }
  assert ((pavingLoop G settings colony fuel room (NtoQ (carry_energy worker))
             ∅ [] None s1).1 = Some tasks) as Hres by by rewrite Htasks.
  destruct (pavingLoop_picks fuel room l s1 Hs _ _ _ _ _ Hres)
    as (picked & Hpicked & Hall & Hpaid & Hnone & Hfirst).
  destruct (pavingLoop_chain G settings colony fuel room l s1 Hs
              (NtoQ (carry_energy worker)) ∅ [] None tasks) as [Hnd _];
    [apply NoDup_nil_2|by intros t ?%elem_of_nil|done|done|done|].
  simpl in Hpicked. subst tasks. rewrite targetRef_repair in Hnd.
  exists picked. rewrite Hres. simpl.
  rewrite (find_ext_elem _ _ l (λ r _, eligible_first r)) in Hnone, Hfirst.
  done.
Qed.


(** X14: [buildPavingManifest] returns [null] exactly when the worker
    carries no energy or no repairable road has fewer hits than its
    maximum. *)
Theorem manifest_null_iff fuel worker room s :
  (length (repairableRoads G settings colony room s).1 < fuel)%nat →
  (buildPavingManifest G settings colony fuel worker room s).1 = Some None ↔
  carry_energy worker = 0%N
  ∨ Forall (λ r, damaged r = false) (repairableRoads G settings colony room s).1.
Proof.
  intros Hfuel.
  destruct (buildPavingManifest_picks fuel worker room s Hfuel)
    as (picked & -> & _ & _ & _ & Hnone & Hfirst).
  rewrite Qle_bool_NtoQ_zero in Hnone, Hfirst. split.
  - intros [= Hchain]. destruct picked as [|r picked]; [|done].
    destruct (Hnone eq_refl) as [He|Hfind]; [left; by apply N.eqb_eq|right].
    apply Forall_forall. intros r Hr.
    apply (find_none _ _ Hfind). by apply list_elem_of_In.
  - intros Hstop. destruct picked as [|r picked]; [done|].
    destruct (Hfirst r eq_refl) as [He [Hr Hdam]%find_Some_elem].
    destruct Hstop as [Hzero|Hall].
    + apply N.eqb_neq in He. done.
    + rewrite (proj1 (Forall_forall _ _) Hall r Hr) in Hdam. done.
Qed.

(** X15: when the worker carries energy, the first action of the
    manifest repairs the first road of [repairableRoads] that has fewer
    hits than its maximum. *)
Theorem manifest_starts_at_first_damaged fuel worker room s road :
  (length (repairableRoads G settings colony room s).1 < fuel)%nat →
  carry_energy worker ≠ 0%N →
  List.find damaged (repairableRoads G settings colony room s).1 = Some road →
  ∃ rest,
    (buildPavingManifest G settings colony fuel worker room s).1
    = Some (Some (Tasks.repair (repairTaskName G) road :: rest)).
Proof.
  intros Hfuel Henergy Hroad.
  destruct (buildPavingManifest_picks fuel worker room s Hfuel)
    as (picked & -> & _ & _ & _ & Hnone & Hfirst).
  rewrite Qle_bool_NtoQ_zero in Hnone, Hfirst.
  destruct picked as [|r picked].
  - destruct (Hnone eq_refl) as [He|Hfind]; [|congruence].
    apply N.eqb_eq in He. done.
  - destruct (Hfirst r eq_refl) as [_ Hr]. rewrite Hroad in Hr.
    injection Hr as <-. by eexists.
Qed.

Lemma frame_pavingLoop fuel room energy targetRefs tasks previousPos :
  frame (pavingLoop G settings colony fuel room energy targetRefs tasks previousPos).
Proof.
  revert energy targetRefs tasks previousPos.
  induction fuel as [|fuel IH]; intros energy targetRefs tasks previousPos; simpl;
    [apply frame_ret|].
  destruct (Qle_bool energy 0); [apply frame_ret|].
  apply frame_bind; [apply frame_repairableRoads|]. intros rr.
  destruct (find _ rr); [apply IH|apply frame_ret].
Qed.

(** X16: [buildPavingManifest], [criticalRoads], [repairableRoads] and
    [energyToRepave] leave the assignment registry as it is: after each
    of them [assignedWorkers] answers for every region what it answered
    before. *)
Theorem manifest_and_classifier_preserve_assignedWorkers fuel worker room s r :
  (assignedWorkers r (buildPavingManifest G settings colony fuel worker room s).2).1
  = (assignedWorkers r s).1 ∧
  (assignedWorkers r (criticalRoads G settings colony room s).2).1
  = (assignedWorkers r s).1 ∧
  (assignedWorkers r (repairableRoads G settings colony room s).2).1
  = (assignedWorkers r s).1 ∧
  (assignedWorkers r (energyToRepave G settings colony room s).2).1
  = (assignedWorkers r s).1.
Proof.
  assert (frame (buildPavingManifest G settings colony fuel worker room)) as Hm.
  { apply frame_bind; [apply frame_pavingLoop|intros; apply frame_ret]. }
  unfold assignedWorkers. simpl.
  by rewrite Hm, (frame_criticalRoads G settings colony),
    (frame_repairableRoads G settings colony), (frame_energyToRepave G settings colony).
Qed.

End ManifestMore.

(** ** Rooms that are taken *)

Section Capacity.

Context (G : Env) (settings : Settings) (colony : Colony).

(** One listed worker with another name fills a room that allows at most
    one paver. *)
Lemma listed_worker_closes_room name worker room s :
  (allowedPaversPerRoom settings ≤ 1)%nat →
  name ∈ default [] (_assignedWorkers s !! room_name room) →
  name ≠ zerg_name worker →
  (workerShouldRepaveRoom G settings colony worker room s).1 = false.
Proof.
  intros Hcap Hin Hne. unfold workerShouldRepaveRoom, bind. simpl.
  set (assigned := default [] _) in *.
  assert (name ∈ List.filter (λ n, negb (String.eqb n (zerg_name worker))) assigned)
    as Hother.
  { apply list_elem_of_In, filter_In. split; [by apply list_elem_of_In|].
    by apply negb_true_iff, String.eqb_neq. }
  destruct (List.filter _ assigned) as [|n l]; [by apply elem_of_nil in Hother|].
  assert ((length (n :: l) <? allowedPaversPerRoom settings)%nat = false) as ->; [|done].
  apply Nat.ltb_ge. simpl. lia.
Qed.

(** X17: after [refresh] and [init], a room into which a worker of the
    pool is repairing is refused to every worker with another name, when
    at most one paver is allowed per room. *)
Theorem repairing_worker_reserves_room repairer other room s :
  (allowedPaversPerRoom settings ≤ 1)%nat →
  repairer ∈ workers colony →
  repairingIn G (room_name room) repairer = true →
  zerg_name other ≠ zerg_name repairer →
  (workerShouldRepaveRoom G settings colony other room
     (init G colony (refresh s).2).2).1 = false.
Proof.
  intros Hcap Hpool Hrep Hne.
  apply (listed_worker_closes_room (zerg_name repairer)); [done| |congruence].
  unfold init. rewrite initWorkers_appends. simpl. rewrite lookup_empty. simpl.
  apply list_elem_of_fmap_2, list_elem_of_In, filter_In.
  split; [by apply list_elem_of_In|done].
Qed.

(** X18: a room that lists two workers with different names, while at
    most one paver is allowed per room, is refused to every worker, the
    two listed ones included. *)
Theorem overbooked_room_refuses_everyone name1 name2 worker room s :
  (allowedPaversPerRoom settings ≤ 1)%nat →
  name1 ∈ (assignedWorkers room s).1 →
  name2 ∈ (assignedWorkers room s).1 →
  name1 ≠ name2 →
  (workerShouldRepaveRoom G settings colony worker room s).1 = false.
Proof.
  intros Hcap H1 H2 Hne. simpl in H1, H2.
  destruct (decide (name1 = zerg_name worker)) as [Heq|Hneq].
  - apply (listed_worker_closes_room name2); [done..|congruence].
  - by apply (listed_worker_closes_room name1).
Qed.

End Capacity.

(** ** The further properties on the sample colony *)

Section MoreInstances.

Import Sample SampleMore.

Lemma sample_rooms_coherent : coherent (rooms colony).
Proof.
  apply (coherent_sub (done_room :: rooms colony)); [apply sample_coherent|].
  intros r Hr. by right.
Qed.

Lemma sample_cold room : cold env colony room empty_state.
Proof. by repeat split. Qed.

Lemma init_after_refresh_books_once_witness :
  unique_booking (init env crowded (refresh empty_state).2).2 ∧
  lists_nodup (init env crowded (refresh empty_state).2).2.
Proof.
  apply (init_after_refresh_books_once env crowded empty_state).
  apply (bool_decide_unpack (NoDup (zerg_name <$> workers crowded))).
  vm_compute. exact I.
Defined.

Lemma registerWorkerAssignment_books_witness :
  (assignedWorkers outpost (registerWorkerAssignment paver home started).2).1
  = (assignedWorkers outpost started).1.
Proof.
  apply (registerWorkerAssignment_books paver home started). discriminate.
Defined.

Lemma registered_region_is_closed_witness :
  (workerShouldRepaveRoom env default_settings colony helper home
     (registerWorkerAssignment paver home started).2).1 = false.
Proof.
  apply (registered_region_is_closed env default_settings colony paver helper
           home started).
  - vm_compute. lia.
  - discriminate.
Defined.

Lemma continuing_worker_stays_witness :
  workerShouldRepave env default_settings colony roadie underway
  = (Some home,
     (workerShouldRepaveRoom env default_settings colony roadie home underway).2).
Proof.
  apply (continuing_worker_stays env default_settings colony roadie
           (mkTask "repair" (mkPos 1 0 "W1N1") "r1") home underway).
  - reflexivity.
  - reflexivity.
  - vm_compute. reflexivity.
  - vm_compute. left.
  - vm_compute. reflexivity.
Defined.

Lemma idle_worker_first_fit_witness :
  (workerShouldRepave env default_settings colony bare started).1
  = List.find (λ r, isRoomActive colony (room_name r) && isSafe r
                    && (workerShouldRepaveRoom env default_settings colony bare r
                          started).1)
      (rooms colony).
Proof.
  apply (idle_worker_first_fit env default_settings colony bare started).
  - reflexivity.
  - apply sample_rooms_coherent.
Defined.

Lemma returned_room_needs_worker_witness :
  (workerShouldRepaveRoom env default_settings colony bare home started).1 = true ∧
  (taskRoom env bare = Some home ∨
   (home ∈ rooms colony ∧ isRoomActive colony (room_name home) = true
    ∧ isSafe home = true)).
Proof.
  apply (returned_room_needs_worker env default_settings colony bare home started).
  - apply sample_rooms_coherent.
  - vm_compute. reflexivity.
Defined.

Lemma decision_independent_of_earlier_query_witness :
  (workerShouldRepaveRoom env default_settings colony helper home
     (workerShouldRepaveRoom env default_settings colony bare outpost started).2).1
  = (workerShouldRepaveRoom env default_settings colony helper home started).1.
Proof.
  apply (decision_independent_of_earlier_query env default_settings colony
           (rooms colony) bare outpost helper home started).
  - apply sample_rooms_coherent.
  - simpl. right. left.
  - simpl. left.
Defined.

Lemma roadless_room_decision_witness :
  (workerShouldRepaveRoom env default_settings colony bare done_room empty_state).1
  = (carryCapacity bare =? 0)%N.
Proof.
  apply (roadless_room_decision env default_settings colony bare done_room
           empty_state).
  - reflexivity.
  - apply sample_cold.
  - vm_compute. reflexivity.
  - vm_compute. lia.
Defined.

Lemma classifier_lists_exactly_witness :
  (road4 ∈ (repairableRoads env default_settings colony outpost empty_state).1 ↔
   road4 ∈ roads outpost ∧
   (NtoQ (hits road4) < NtoQ (hitsMax road4) * repairThreshold default_settings)%Q ∧
   roadShouldBeHere colony (pos road4) = true) ∧
  (road4 ∈ (criticalRoads env default_settings colony outpost empty_state).1 ↔
   road4 ∈ roads outpost ∧
   (NtoQ (hits road4) < NtoQ (hitsMax road4) * criticalThreshold default_settings)%Q ∧
   roadShouldBeHere colony (pos road4) = true).
Proof.
  apply (classifier_lists_exactly env default_settings colony outpost empty_state
           road4).
  apply sample_cold.
Defined.

Lemma classifier_lists_sorted_witness :
  ((repairableRoads env default_settings colony home empty_state).1
     ≡ₚ List.filter (needsRepair colony (repairThreshold default_settings)) (roads home) ∧
   StronglySorted (closerToAnchor env colony)
     (repairableRoads env default_settings colony home empty_state).1) ∧
  ((criticalRoads env default_settings colony home empty_state).1
     ≡ₚ List.filter (needsRepair colony (criticalThreshold default_settings)) (roads home) ∧
   StronglySorted (closerToAnchor env colony)
     (criticalRoads env default_settings colony home empty_state).1).
Proof.
  apply (classifier_lists_sorted env default_settings colony home empty_state).
  apply sample_cold.
Defined.

Lemma repairable_roads_cost_energy_witness :
  (0 < (energyToRepave env default_settings colony home empty_state).1)%Q.
Proof.
  apply (repairable_roads_cost_energy env default_settings colony home empty_state).
  - vm_compute. discriminate.
  - apply sample_cold.
  - vm_compute. discriminate.
Defined.


Lemma manifest_null_iff_witness :
  (buildPavingManifest env default_settings colony 4 mender home empty_state).1
  = Some None.
Proof.
  apply (manifest_null_iff env default_settings colony 4 mender home empty_state).
  - vm_compute. lia.
  - left. reflexivity.
Defined.

Lemma manifest_starts_at_first_damaged_witness :
  ∃ rest,
    (buildPavingManifest env default_settings colony 4 paver home empty_state).1
    = Some (Some (Tasks.repair (repairTaskName env) road1 :: rest)).
Proof.
  apply (manifest_starts_at_first_damaged env default_settings colony 4 paver home
           empty_state road1).
  - vm_compute. lia.
  - discriminate.
  - vm_compute. reflexivity.
Defined.

Lemma repairing_worker_reserves_room_witness :
  (workerShouldRepaveRoom env default_settings crowded paver done_room
     (init env crowded (refresh empty_state).2).2).1 = false.
Proof.
  apply (repairing_worker_reserves_room env default_settings crowded mason paver
           done_room empty_state).
  - vm_compute. lia.
  - simpl. right. right. left.
  - reflexivity.
  - discriminate.
Defined.

Lemma overbooked_room_refuses_everyone_witness :
  (workerShouldRepaveRoom env default_settings crowded mender done_room
     (init env crowded (refresh empty_state).2).2).1 = false.
Proof.
  apply (overbooked_room_refuses_everyone env default_settings crowded
           "mender" "mason" mender done_room
           (init env crowded (refresh empty_state).2).2).
  - vm_compute. lia.
  - vm_compute. left.
  - vm_compute. right. left.
  - discriminate.
Defined.

End MoreInstances.
